(** * Serene front-end: source manager, namespaces, environments, errors

    A shallow embedding of the parts of the Serene compiler front-end that
    the specification makes claims about:

    - [location.h]      : [Location], [LocationRange]
    - [_errors.h], [errors.h], [errors.cpp] : error kinds, default messages,
                          [errors::Error] and its [log]
    - [ast/ast.h], [ast.cpp] : the expression nodes, [getType], [classof],
                          the [Symbol] constructor
    - [environment.h]   : [Environment<V>] with its parent pointer
    - [namespace.cpp]   : [Namespace::ExpandTree]
    - [source_mgr.cpp]  : the buffer registry, the load path, the line index

    Unsigned machine integers are values of [N], with [size_t] of 64 bits
    and [unsigned] of 32; where the source narrows a value ([size_t] to
    [unsigned], [size_t] to the offset-cache element type) the reduction
    modulo [2^w] is written out.  Pointers into a buffer are
    byte offsets from the buffer start, [None] being the null pointer. *)

From Stdlib Require Import NArith Lia List String Ascii.
From Stdlib Require Strings.Byte.
From stdpp Require Import gmap strings list fin_maps sorting.

Set Warnings "-register-all".

Import ListNotations.

(* ===================================================================== *)
(** ** location.h *)
(* ===================================================================== *)

(** [struct Location].  [c] is the pointer to the character in the input
    buffer (an offset, or [None] for [nullptr]); [line] and [col] are
    [unsigned short]. *)
Record Location := mkLocation {
  ns            : string;
  filename      : option string;
  c             : option N;
  line          : N;
  col           : N;
  knownLocation : bool
}.

(** [Location::UnknownLocation(ns)] *)
Definition Location_UnknownLocation (ns : string) : Location :=
  mkLocation ns None None 0 0 false.

(** [class LocationRange] *)
Record LocationRange := mkLocationRange {
  start : Location;
  end_  : Location
}.

(** [explicit LocationRange(Location _start)] *)
Definition LocationRange_point (l : Location) : LocationRange :=
  mkLocationRange l l.

Definition isKnownLocation (lr : LocationRange) : bool :=
  knownLocation (start lr).

(** [LocationRange::UnknownLocation(ns)] *)
Definition LocationRange_UnknownLocation (ns : string) : LocationRange :=
  LocationRange_point (Location_UnknownLocation ns).

(* ===================================================================== *)
(** ** _errors.h, errors.h, errors.cpp *)
(* ===================================================================== *)

Module errors.

(** [enum class Type] *)
Inductive Type_ :=
| NSLoadError
| NSAddToSMError
| InvalidDigitForNumber
| TwoFloatPoints
| InvalidCharacterForSymbol
| EOFWhileScaningAList
| FINALERROR.

#[global] Instance Type_eq_dec : EqDecision Type_.
Proof. solve_decision. Defined.

(** [static_cast<int>(t)] *)
Definition Type_to_int (t : Type_) : nat :=
  match t with
  | NSLoadError => 0
  | NSAddToSMError => 1
  | InvalidDigitForNumber => 2
  | TwoFloatPoints => 3
  | InvalidCharacterForSymbol => 4
  | EOFWhileScaningAList => 5
  | FINALERROR => 6
  end.

(** The initialisers of [errorMessages]: six strings. *)
Definition errorMessages_init : list string :=
  [ "Faild to load the namespace"%string;
    "Faild to add the namespace to the source manager"%string;
    "Invalid number format"%string;
    "Invalid float number format"%string;
    "Invalid symbol format"%string;
    "Reached the end of the file while scanning for a list"%string ].

(** [errorMessages[static_cast<int>(Type::FINALERROR) + 1]]: seven slots,
    the slots without an initialiser hold the empty string. *)
Definition errorMessages : list string :=
  errorMessages_init ++
  repeat EmptyString
    (Type_to_int FINALERROR + 1 - length errorMessages_init).

(** The default message of a kind: [errorMessages[static_cast<int>(t)]]. *)
Definition defaultMessage (t : Type_) : string :=
  nth (Type_to_int t) errorMessages EmptyString.

(** [class Error : public llvm::ErrorInfo<Error>] *)
Record Error := mkError {
  type     : Type_;
  location : LocationRange;
  msg      : string
}.

(** [Error(Type errtype, const LocationRange &loc)]: [msg] is
    default-initialised, that is, empty. *)
Definition Error_ctor (errtype : Type_) (loc : LocationRange) : Error :=
  mkError errtype loc EmptyString.

(** [Error(Type errtype, const LocationRange &loc, llvm::StringRef msg)] *)
Definition Error_ctor_msg (errtype : Type_) (loc : LocationRange)
    (m : string) : Error :=
  mkError errtype loc m.

(** [void log(llvm::raw_ostream &os) const { os << msg; }]; the stream is
    the text written so far. *)
Definition log (e : Error) (os : string) : string := os +:+ msg e.

Definition where_ (e : Error) : LocationRange := location e.

(** [llvm::Error make(Type t, const LocationRange &loc, llvm::StringRef msg)] *)
Definition make_msg (t : Type_) (loc : LocationRange) (m : string) : Error :=
  Error_ctor_msg t loc m.

(** [llvm::Error make(Type t, const LocationRange &loc)] *)
Definition make (t : Type_) (loc : LocationRange) : Error :=
  Error_ctor t loc.

(** [std::string getMessage(const llvm::Error &e)]: [os << e] on a fresh
    string stream, which calls [log]. *)
Definition getMessage (e : Error) : string := log e EmptyString.

End errors.

(* ===================================================================== *)
(** ** environment.h *)
(* ===================================================================== *)

(** What the template [Environment<V>] needs of its value type: [V()] (the
    value [StringMap::lookup] returns for an absent key) and the contextual
    conversion to [bool] used by [if (auto value = pairs.lookup(key))]. *)
Class ValueType (V : Type) := {
  default_value : V;
  to_bool       : V -> bool
}.

(** An unsigned integer as value type: [V()] is [0], and a value converts
    to [true] when it is not zero. *)
#[global] Instance unsigned_ValueType : ValueType N :=
  {| default_value := 0%N; to_bool := fun n => negb (n =? 0)%N |}.

(** [Environment<V>].  Environments live in a store (the vector that owns
    them); an [Environment<V> *] is an index into that store and [None] is
    [nullptr]. *)
Record Environment (V : Type) := mkEnvironment {
  parent : option nat;
  pairs  : gmap string V
}.
Arguments mkEnvironment {V} _ _.
Arguments parent {V} _.
Arguments pairs {V} _.

(* ===================================================================== *)
(** ** ast/ast.h, ast.cpp *)
(* ===================================================================== *)

Module ast.

(** [TypeID] is declared in [serene/config.h], which is generated at build
    time and is not part of the sources; the enumerators below are the ones
    the sources name. *)
Inductive TypeID :=
| NIL | TYPE | FN | PROTOCOL | INT
| SYMBOL | NUMBER | LIST | STRING | KEYWORD | NS.

#[global] Instance TypeID_eq_dec : EqDecision TypeID.
Proof. solve_decision. Defined.

(** [struct Expression] and its subclasses.  [Node] is
    [std::unique_ptr<Expression>], which may be null: [option Expression].
    [Ast] is [std::vector<Node>]. *)
Inductive Expression :=
| Symbol    (location : LocationRange) (name nsName : string)
| Number    (location : LocationRange) (value : string)
            (isNeg isFloat : bool)
| List      (location : LocationRange) (elements : list (option Expression))
| String_   (location : LocationRange) (data : string)
| Keyword   (location : LocationRange) (name : string)
  (** [tag] is a [std::unique_ptr<Keyword>]: the location and name of the
      keyword, or null. *)
| Error     (location : LocationRange) (msg : string)
            (tag : option (LocationRange * string))
| Namespace (location : LocationRange) (name : string)
            (filename : option string)
            (tree : list (option Expression))
            (environments : list (Environment (option Expression))).

Definition Node := option Expression.
Definition Ast := list Node.

(** [constexpr static auto EmptyNode = nullptr;] *)
Definition EmptyNode : Node := None.

(** A [Node] as value type: [V()] is the null pointer, and a pointer
    converts to [true] when it is not null. *)
#[global] Instance Node_ValueType : ValueType Node :=
  {| default_value := None; to_bool := fun n => bool_decide (n <> None) |}.

(** [virtual TypeID getType() const], as overridden by each subclass. *)
Definition getType (e : Expression) : TypeID :=
  match e with
  | Symbol _ _ _ => SYMBOL
  | Number _ _ _ _ => NUMBER
  | List _ _ => LIST
  | String_ _ _ => STRING
  | Keyword _ _ => KEYWORD
  | Error _ _ _ => KEYWORD
  | Namespace _ _ _ _ _ => NS
  end.

(** The [classof] of each subclass. *)
Definition Symbol_classof (e : Expression) : bool :=
  bool_decide (getType e = SYMBOL).
Definition Number_classof (e : Expression) : bool :=
  bool_decide (getType e = NUMBER).
Definition List_classof (e : Expression) : bool :=
  bool_decide (getType e = LIST).
Definition String_classof (e : Expression) : bool :=
  bool_decide (getType e = STRING).
Definition Keyword_classof (e : Expression) : bool :=
  bool_decide (getType e = KEYWORD).
Definition Error_classof (e : Expression) : bool :=
  bool_decide (getType e = KEYWORD).
Definition Namespace_classof (e : Expression) : bool :=
  bool_decide (getType e = NS).

(** [llvm::StringRef::find(char)]: the index of the first occurrence;
    [None] is [npos]. *)
Fixpoint find (ch : ascii) (s : string) : option nat :=
  match s with
  | EmptyString => None
  | String.String x rest =>
      if Ascii.eqb x ch then Some 0
      else match find ch rest with
           | Some i => Some (S i)
           | None => None
           end
  end.

(** [llvm::StringRef::substr(Start, N)]: [Start] is clamped to the length
    and at most [N] characters are taken. *)
Definition substr (Start n : nat) (s : string) : string :=
  String.substring Start n s.

(** [Symbol::Symbol(const LocationRange &loc, llvm::StringRef name,
                    llvm::StringRef currentNS)] *)
Definition Symbol_ctor (loc : LocationRange) (name currentNS : string)
    : Expression :=
  match find "/"%char name with
  | None => Symbol loc name currentNS
  | Some partDelimiter =>
      Symbol loc
        (substr (partDelimiter + 1) (String.length name) name)
        (substr 0 partDelimiter name)
  end.

Definition Symbol_name (e : Expression) : string :=
  match e with Symbol _ n _ => n | _ => EmptyString end.
Definition Symbol_nsName (e : Expression) : string :=
  match e with Symbol _ _ n => n | _ => EmptyString end.

(** [Namespace::createEnv(SemanticEnv *parent)] on the fields of a
    [Namespace] node. *)
Definition Namespace_createEnv (e : Expression) (parent : option nat)
    : Expression :=
  match e with
  | Namespace loc name filename tree environments =>
      Namespace loc name filename tree
        (environments ++ [mkEnvironment parent ∅])
  | _ => e
  end.

(** [Namespace::Namespace(const LocationRange &loc, llvm::StringRef name,
                          std::optional<llvm::StringRef> filename)] *)
Definition Namespace_ctor (loc : LocationRange) (name : string)
    (filename : option string) : Expression :=
  Namespace_createEnv (Namespace loc name filename [] []) None.

(** Modelled from the spec: [ast::Namespace::ExpandTree] is declared in
    [ast.h] and defined in none of the sources.  Section 4.3: the forms are
    appended to [tree], the source [ast] handle is left empty, and the
    default analysis hook passes through.  The result is the error ([None]
    is success), the node and the caller's [ast] after the call. *)
Definition Namespace_ExpandTree (e : Expression) (ast : Ast)
    : option errors.Error * Expression * Ast :=
  match e with
  | Namespace loc name filename tree environments =>
      (None, Namespace loc name filename (tree ++ ast) environments, [])
  | _ => (None, e, ast)
  end.

(** [List::List(const LocationRange &loc, Ast &v)]: the elements are swapped
    with [v], then [v] is cleared.  The result is the node and [v] after the
    call. *)
Definition List_ctor_from (loc : LocationRange) (v : Ast) : Expression * Ast :=
  let elements : Ast := [] in
  let '(elements, v) := (v, elements) in
  (List loc elements, []).

(** [explicit List::List(const LocationRange &loc)] *)
Definition List_ctor (loc : LocationRange) : Expression := List loc [].

(** [void List::append(Node &n)]: [elements.push_back(std::move(n))]; the
    caller's [n] is left null.  On a node that is not a [List] the call does
    not exist; the node is returned as it is. *)
Definition List_append (l : Expression) (n : Node) : Expression * Node :=
  match l with
  | List loc elements => (List loc (elements ++ [n]), EmptyNode)
  | _ => (l, n)
  end.

(** [const short truncateSize = 10;] of [String::toString]. *)
Definition truncateSize : nat := 10.

(** [virtual std::string toString() const], as overridden by each subclass;
    [llvm::formatv] with its placeholders filled in.  [List::toString] calls
    [n->toString()] on every element: the result is [None] when a null
    element is dereferenced. *)
Fixpoint toString (e : Expression) : option string :=
  match e with
  | Symbol _ name nsName =>
      Some (((("<Symbol " +:+ nsName) +:+ "/") +:+ name) +:+ ">")
  | Number _ value isNeg _ =>
      Some ((("<Number " +:+ (if isNeg then "-" else "")) +:+ value) +:+ ">")
  | List _ elements =>
      let fix loop (ns : list (option Expression)) (s : string)
          : option string :=
        match ns with
        | [] => Some s
        | None :: _ => None
        | Some n :: rest =>
            match toString n with
            | Some t => loop rest ((s +:+ ", ") +:+ t)
            | None => None
            end
        end in
      match loop elements
              (match elements with [] => "-" | _ => "" end)%string with
      | Some s => Some (("<List " +:+ s) +:+ ">")
      | None => None
      end
  | String_ _ data =>
      Some (("<String '" +:+
             substr 0 (if truncateSize <=? String.length data
                       then truncateSize else String.length data) data)
            +:+ "'>")
  | Keyword _ name => Some (("<Keyword " +:+ name) +:+ ">")
  | Error _ msg _ => Some (("<Error " +:+ msg) +:+ ">")
  | Namespace _ name _ _ _ => Some (("<NS " +:+ name) +:+ ">")
  end.

(** [utils.h]: [makeFQSymbolName(ns, sym, result)] leaves [ns + "/" + sym]
    in [result]. *)
Definition makeFQSymbolName (ns sym : string) : string :=
  (ns +:+ "/") +:+ sym.

End ast.


(* ===================================================================== *)
(** ** environment.h: lookup and insert_symbol *)
(* ===================================================================== *)

Module Env.
Section Operations.
Context {V : Type} `{ValueType V}.

(** The store that owns the environments (for a namespace, its
    [environments] vector) is a [list (Environment V)]. *)

(** [llvm::StringMap<V>::lookup(key)]: the mapped value, or a
    default-constructed [V] when the key is absent. *)
Definition StringMap_lookup (m : gmap string V) (key : string) : V :=
  match m !! key with
  | Some v => v
  | None => default_value
  end.

(** [std::optional<V> lookup(llvm::StringRef key)] called on the environment
    at address [self].  The recursion follows the parent pointer; [fuel]
    bounds the number of environments visited.  The outer [None] means that
    no result is produced (a dangling pointer, or the bound was reached);
    [Some None] is [std::nullopt]. *)
Fixpoint lookup_fuel (fuel : nat) (store : list (Environment V)) (self : nat)
    (key : string) : option (option V) :=
  match fuel with
  | O => None
  | S fuel' =>
      match store !! self with
      | None => None
      | Some env =>
          let value := StringMap_lookup (pairs env) key in
          if to_bool value then Some (Some value)
          else match parent env with
               | Some p => lookup_fuel fuel' store p key
               | None => Some None
               end
      end
  end.

(** A chain of distinct environments visits at most every environment of
    the store once. *)
Definition lookup (store : list (Environment V)) (self : nat) (key : string)
    : option (option V) :=
  lookup_fuel (length store) store self key.

(** [mlir::LogicalResult insert_symbol(llvm::StringRef key, V value)] on the
    environment at address [self]: [pairs.insert_or_assign(key, value)], the
    result is always [mlir::success()] ([true]). *)
Definition insert_symbol (store : list (Environment V)) (self : nat) (key : string)
    (value : V) : bool * list (Environment V) :=
  (true,
   alter (fun env => mkEnvironment (parent env) (<[key := value]> (pairs env)))
         self store).

(** [explicit Environment(Environment *parent)], allocated at the end of the
    store; the address of the new environment is returned
    ([Namespace::createEnv]). *)
Definition createEnv (store : list (Environment V)) (parent : option nat)
    : nat * list (Environment V) :=
  (length store, store ++ [mkEnvironment parent ∅]).

(** Parent pointers refer to environments that were created earlier. *)
Definition wf_store (store : list (Environment V)) : Prop :=
  forall i env p,
    store !! i = Some env -> parent env = Some p -> p < i.

End Operations.
End Env.

(* ===================================================================== *)
(** ** options.h and the part of jit.h that namespaces use *)
(* ===================================================================== *)

Inductive CompilationPhase :=
| Parse | Analysis | SLIR | MLIR | LIR | IR | NoOptimization | O1 | O2 | O3.

#[global] Instance CompilationPhase_eq_dec : EqDecision CompilationPhase.
Proof. solve_decision. Defined.

(** [struct Options] without the two [llvm::Triple] fields. *)
Record Options := mkOptions {
  verbose                           : bool;
  withColors                        : bool;
  JITenableObjectCache              : bool;
  JITenableGDBNotificationListener  : bool;
  JITenablePerfNotificationListener : bool;
  JITLazy                           : bool;
  compilationPhase                  : CompilationPhase
}.

Definition defaultOptions : Options :=
  mkOptions false true true true true false NoOptimization.

(** [class JIT], reduced to the options it hands out: [getOptions()]. *)
Record JIT := mkJIT { getOptions : Options }.

(* ===================================================================== *)
(** ** namespace.h, namespace.cpp *)
(* ===================================================================== *)

Module Namespace.

(** [class Namespace] *)
Record t := mk {
  engine       : JIT;
  tree         : ast.Ast;
  environments : list (Environment ast.Node);
  symbolList   : list string;
  name         : string;
  filename     : option string
}.

(** [Namespace::createEnv(SemanticEnv *parent)] *)
Definition createEnv (ns : t) (parent : option nat) : nat * t :=
  let '(addr, envs) := Env.createEnv (environments ns) parent in
  (addr, mk (engine ns) (tree ns) envs (symbolList ns) (name ns) (filename ns)).

(** [Namespace::Namespace(jit::JIT &engine, llvm::StringRef ns_name,
                          std::optional<llvm::StringRef> filename)] *)
Definition ctor (engine : JIT) (ns_name : string) (filename : option string)
    : t :=
  snd (createEnv (mk engine [] [] [] ns_name filename) None).

Definition getTree (ns : t) : ast.Ast := tree ns.

(** [v.insert(v.end(), std::make_move_iterator(src.begin()),
              std::make_move_iterator(src.end()))]: the nodes are moved to
    the end of [v]; every node of [src] is left null. *)
Definition insert_end_moved (v src : ast.Ast) : ast.Ast * ast.Ast :=
  (v ++ src, map (fun _ => ast.EmptyNode) src).

(** [llvm::Error Namespace::ExpandTree(ast::Ast &ast)].  The result is the
    error ([None] is [llvm::Error::success()]), the namespace and the
    caller's [ast] after the call. *)
Definition ExpandTree (ns : t) (ast : ast.Ast)
    : option errors.Error * t * ast.Ast :=
  if bool_decide (compilationPhase (getOptions (engine ns)) = Parse) then
    let '(tree', ast1) := insert_end_moved (tree ns) ast in
    let ast2 : ast.Ast := [] in
    (None,
     mk (engine ns) tree' (environments ns) (symbolList ns) (name ns)
        (filename ns),
     ast2)
  else
    let '(tree', ast1) := insert_end_moved (tree ns) ast in
    let ast2 : ast.Ast := [] in
    (None,
     mk (engine ns) tree' (environments ns) (symbolList ns) (name ns)
        (filename ns),
     ast2).

(** [SemanticEnv &Namespace::getRootEnv()]: [None] when the [assert] that an
    environment exists fails. *)
Definition getRootEnv (ns : t) : option (Environment ast.Node) :=
  match environments ns with
  | [] => None
  | root :: _ => Some root
  end.

(** [NSPtr Namespace::make(jit::JIT &engine, llvm::StringRef name,
                           std::optional<llvm::StringRef> filename)] *)
Definition make (engine : JIT) (name : string) (filename : option string)
    : t :=
  ctor engine name filename.

(** The calls that change a namespace after its construction. *)
Inductive Call :=
| CallCreateEnv (parent : option nat)
| CallExpandTree (ast : ast.Ast).

Definition call (ns : t) (c : Call) : t :=
  match c with
  | CallCreateEnv parent => snd (createEnv ns parent)
  | CallExpandTree ast => snd (fst (ExpandTree ns ast))
  end.

(** A sequence of calls, in order. *)
Definition calls (ns : t) (cs : list Call) : t := fold_left call cs ns.

End Namespace.


(* ===================================================================== *)
(** ** source_mgr.cpp *)
(* ===================================================================== *)

Module SourceMgr.

(** The content of an [llvm::MemoryBuffer]. *)
Definition MemoryBuffer := list Byte.byte.

(** [SourceMgr::MemBufPtr], a [std::unique_ptr<llvm::MemoryBuffer>]. *)
Definition MemBufPtr := option MemoryBuffer.

(** [std::error_code] *)
Definition error_code := N.

(** [SourceMgr::SrcBuffer].  [offsetCache] is the [void *] that points to a
    [std::vector<T>] once the cache is built. *)
Record SrcBuffer := mkSrcBuffer {
  buffer      : MemoryBuffer;
  offsetCache : option (list N);
  importLoc   : LocationRange
}.

(** [class SourceMgr].  The class is declared in [source_mgr.h], which is not
    among the sources; its members are read off their uses in
    [source_mgr.cpp]: [buffers] and [loadPaths] as [std::vector]s, whose
    [size()] is a [size_t], and [nsTable] as a string map to [unsigned]. *)
Record t := mk {
  buffers   : list SrcBuffer;
  nsTable   : gmap string N;
  loadPaths : list string
}.

(** [std::numeric_limits<T>::max()] for an unsigned type of [w] bits. *)
Definition numeric_limits_max (w : N) : N := 2 ^ w - 1.

(** Conversion to an unsigned type of [w] bits. *)
Definition static_cast (w : N) (n : N) : N := n mod 2 ^ w.

(** The width of [unsigned]. *)
Definition unsigned_bits : N := 32.

(** [std::replace(s.begin(), s.end(), old_value, new_value)] *)
Fixpoint std_replace (old_value new_value : ascii) (s : string) : string :=
  match s with
  | EmptyString => EmptyString
  | String.String x rest =>
      String.String (if Ascii.eqb x old_value then new_value else x)
                    (std_replace old_value new_value rest)
  end.

(** [bool SourceMgr::isValidBufferID(unsigned i) const] *)
Definition isValidBufferID (sm : t) (i : N) : bool :=
  negb (i =? 0)%N && (i <=? N.of_nat (length (buffers sm)))%N.

(** [unsigned SourceMgr::AddNewSourceBuffer(std::unique_ptr<llvm::MemoryBuffer> f,
                                            const LocationRange &includeLoc)]:
    [buffers.size()] is a [size_t] and is returned as [unsigned]. *)
Definition AddNewSourceBuffer (sm : t) (f : MemoryBuffer)
    (includeLoc : LocationRange) : N * t :=
  let nb := mkSrcBuffer f None includeLoc in
  let buffers' := buffers sm ++ [nb] in
  (static_cast unsigned_bits (N.of_nat (length buffers')),
   mk buffers' (nsTable sm) (loadPaths sm)).

(** The loop of [GetOrCreateOffsetCache<T>] from index [n] on, [s] being the
    bytes that remain: the offset of every newline is pushed as a [T]. *)
Fixpoint fill_offsets (w : N) (s : MemoryBuffer) (n : N) : list N :=
  match s with
  | [] => []
  | b :: rest =>
      if Byte.eqb b Byte.x0a
      then static_cast w n :: fill_offsets w rest (n + 1)
      else fill_offsets w rest (n + 1)
  end.

(** The [assert] of [GetOrCreateOffsetCache<T>]. *)
Definition offsetCache_assert (w : N) (buffer : MemoryBuffer) : bool :=
  (N.of_nat (length buffer) <=? numeric_limits_max w)%N.

(** [GetOrCreateOffsetCache<T>(void *&offsetCache, llvm::MemoryBuffer *buffer)]
    for [T] of [w] bits: the offsets and the pointer left in [offsetCache]. *)
Definition GetOrCreateOffsetCache (w : N) (offsetCache : option (list N))
    (buffer : MemoryBuffer) : list N * option (list N) :=
  match offsetCache with
  | Some offsets => (offsets, offsetCache)
  | None =>
      let offsets := fill_offsets w buffer 0 in
      (offsets, Some offsets)
  end.

(** [SrcBuffer::getPointerForLineNumberSpecialized<T>(unsigned lineNo)].  The
    pointer is an offset from [buffer->getBufferStart()], [None] is
    [nullptr]; the buffer comes back with its cache. *)
Definition getPointerForLineNumberSpecialized (w : N) (sb : SrcBuffer)
    (lineNo : N) : option N * SrcBuffer :=
  let '(offsets, cache) :=
    GetOrCreateOffsetCache w (offsetCache sb) (buffer sb) in
  let sb' := mkSrcBuffer (buffer sb) cache (importLoc sb) in
  let lineNo := if negb (lineNo =? 0)%N then (lineNo - 1)%N else lineNo in
  let bufStart := 0%N in
  if (lineNo =? 0)%N then (Some bufStart, sb')
  else if (N.of_nat (length offsets) <? lineNo)%N then (None, sb')
  else
    (Some (bufStart + nth (N.to_nat (lineNo - 1)) offsets 0 + 1)%N, sb').

(** [SrcBuffer::getPointerForLineNumber(unsigned lineNo)] *)
Definition getPointerForLineNumber (sb : SrcBuffer) (lineNo : N)
    : option N * SrcBuffer :=
  let sz := N.of_nat (length (buffer sb)) in
  if (sz <=? numeric_limits_max 8)%N then
    getPointerForLineNumberSpecialized 8 sb lineNo
  else if (sz <=? numeric_limits_max 16)%N then
    getPointerForLineNumberSpecialized 16 sb lineNo
  else if (sz <=? numeric_limits_max 32)%N then
    getPointerForLineNumberSpecialized 32 sb lineNo
  else
    getPointerForLineNumberSpecialized 64 sb lineNo.

(** A buffer as [AddNewSourceBuffer] stores it. *)
Definition freshSrcBuffer (f : MemoryBuffer) (loc : LocationRange)
    : SrcBuffer :=
  mkSrcBuffer f None loc.

(** Modelled from the spec: [getMemoryBuffer(i)] is defined in
    [source_mgr.h], which is not among the sources.  Section 4.2,
    [getBuffer(id)]: the buffer registered under [id], with the precondition
    [isValidId(id)]; ids are 1-based. *)
Definition getMemoryBuffer (sm : t) (i : N) : MemoryBuffer :=
  buffer (nth (N.to_nat (i - 1)) (buffers sm)
              (mkSrcBuffer [] None (LocationRange_UnknownLocation EmptyString))).

(** The load paths that the loop of [findFileInLoadPath] ranges over:
    [for (unsigned i = 0, e = loadPaths.size(); i != e; ++i)] visits
    [loadPaths[0]] to [loadPaths[e - 1]], where [e] is the size narrowed to
    [unsigned]. *)
Definition probedLoadPaths (sm : t) : list string :=
  let e := static_cast unsigned_bits (N.of_nat (length (loadPaths sm))) in
  take (N.to_nat e) (loadPaths sm).

Section Host.

(** What the host provides: [llvm::sys::path::get_separator()] and
    [llvm::sys::path::native], the macro [DEFAULT_SUFFIX] of
    [serene/config.h], the file system as [llvm::MemoryBuffer::getFile] sees
    it, and the reader ([read] of [reader.h], whose definition is not among
    the sources). *)
Variable get_separator : string.
Variable native : string -> string.
Variable DEFAULT_SUFFIX : string.
Variable getFile : string -> error_code + MemoryBuffer.
Variable read :
  MemoryBuffer -> string -> option string -> errors.Error + ast.Ast.

(** [std::string SourceMgr::convertNamespaceToPath(std::string ns_name)] *)
Definition convertNamespaceToPath (ns_name : string) : string :=
  let ns_name := std_replace "."%char "/"%char ns_name in
  native ns_name.

(** The loop of [findFileInLoadPath] over the load paths that remain.  The
    result is the returned pointer, the value left in [importedFile] and the
    paths passed to [getFile], in order. *)
Fixpoint findFileInLoadPath_loop (path : string) (dirs : list string)
    (importedFile : string) : MemBufPtr * string * list string :=
  match dirs with
  | [] => (None, importedFile, [])
  | dir :: rest =>
      let importedFile :=
        (((dir +:+ get_separator) +:+ path) +:+ ".") +:+ DEFAULT_SUFFIX in
      match getFile importedFile with
      | inl err =>
          let '(r, f, probes) :=
            findFileInLoadPath_loop path rest importedFile in
          (r, f, importedFile :: probes)
      | inr newBuf => (Some newBuf, importedFile, [importedFile])
      end
  end.

(** [SourceMgr::findFileInLoadPath(const std::string &name,
                                   std::string &importedFile)] *)
Definition findFileInLoadPath (sm : t) (name : string) (importedFile : string)
    : MemBufPtr * string * list string :=
  let path := convertNamespaceToPath name in
  findFileInLoadPath_loop path (probedLoadPaths sm) importedFile.

(** [llvm::formatv] with one [{0}] between a prefix and a closing quote. *)
Definition formatv_quoted (prefix : string) (arg : string) : string :=
  (prefix +:+ arg) +:+ "'".

(** [ast::MaybeNS SourceMgr::readNamespace(std::string name,
                                           const LocationRange &importLoc)]:
    the error or the namespace node, and the source manager after the
    call. *)
Definition readNamespace (sm : t) (name : string) (importLoc : LocationRange)
    : (errors.Error + ast.Expression) * t :=
  let importedFile := EmptyString in
  let '(newBufOrErr, importedFile, _) :=
    findFileInLoadPath sm name importedFile in
  match newBufOrErr with
  | None =>
      let msg := formatv_quoted "Couldn't find namespace '" name in
      (inl (errors.make_msg errors.NSLoadError importLoc msg), sm)
  | Some newBuf =>
      let '(bufferId, sm) := AddNewSourceBuffer sm newBuf importLoc in
      let sm := mk (buffers sm) (<[name := bufferId]> (nsTable sm))
                   (loadPaths sm) in
      if (bufferId =? 0)%N then
        let msg := formatv_quoted "Couldn't add namespace '" name in
        (inl (errors.make_msg errors.NSAddToSMError importLoc msg), sm)
      else
        let buf := getMemoryBuffer sm bufferId in
        match read buf name (Some importedFile) with
        | inl err => (inl err, sm)
        | inr maybeAst =>
            let ns := ast.Namespace_ctor importLoc name (Some importedFile) in
            match ast.Namespace_ExpandTree ns maybeAst with
            | (Some errs, _, _) => (inl errs, sm)
            | (None, ns, _) => (inr ns, sm)
            end
        end
  end.

End Host.

(** A run of [AddNewSourceBuffer] calls: for each call, the returned id and
    the source manager immediately after it. *)
Fixpoint addBuffers (sm : t) (calls : list (MemoryBuffer * LocationRange))
    : list (N * t) :=
  match calls with
  | [] => []
  | (f, loc) :: rest =>
      let '(id, sm') := AddNewSourceBuffer sm f loc in
      (id, sm') :: addBuffers sm' rest
  end.

End SourceMgr.


(* ===================================================================== *)
(** ** jit/jit.h, jit.cpp *)
(* ===================================================================== *)

Module jit.

(** The position of a phase in [enum class CompilationPhase], which is the
    order that [<=] compares. *)
Definition phase_index (p : CompilationPhase) : Z :=
  match p with
  | Parse => 0 | Analysis => 1 | SLIR => 2 | MLIR => 3 | LIR => 4 | IR => 5
  | NoOptimization => 6 | O1 => 7 | O2 => 8 | O3 => 9
  end%Z.

(** [int JIT::getOptimizatioLevel() const], on the options of the engine. *)
Definition getOptimizatioLevel (options : Options) : Z :=
  if (phase_index (compilationPhase options) <=? phase_index NoOptimization)%Z
  then 0%Z
  else if bool_decide (compilationPhase options = O1) then 1%Z
  else if bool_decide (compilationPhase options = O2) then 2%Z
  else 3%Z.

(** An [llvm::orc::JITDylib *]: an address, [None] being [nullptr]. *)
Abbreviation JITDylibPtr := (option N).

(** The member [jitDylibs] of [class JIT] is a [gmap string (list
    JITDylibPtr)]: for each namespace name the dylibs pushed for it, the
    newest last. *)

(** [orc::JITDylib *JIT::getLatestJITDylib(const llvm::StringRef &nsName)] *)
Definition getLatestJITDylib (jitDylibs : gmap string (list JITDylibPtr))
    (nsName : string) : JITDylibPtr :=
  match jitDylibs !! nsName with
  | None => None
  | Some vec =>
      match vec with
      | [] => None
      | _ => List.last vec None
      end
  end.

(** [void JIT::pushJITDylib(const llvm::StringRef &nsName,
                            llvm::orc::JITDylib *l)] *)
Definition pushJITDylib (jitDylibs : gmap string (list JITDylibPtr))
    (nsName : string) (l : JITDylibPtr) : gmap string (list JITDylibPtr) :=
  match jitDylibs !! nsName with
  | None =>
      let vec := [l] in
      <[nsName := vec]> jitDylibs
  | Some vec =>
      let vec := vec ++ [l] in
      <[nsName := vec]> jitDylibs
  end.

(** [size_t JIT::getNumberOfJITDylibs(const llvm::StringRef &nsName)] *)
Definition getNumberOfJITDylibs (jitDylibs : gmap string (list JITDylibPtr))
    (nsName : string) : N :=
  match jitDylibs !! nsName with
  | None => 0%N
  | Some vec => N.of_nat (length vec)
  end.

(** [void setLoadPaths(std::vector<const char *> &dirs)]:
    [loadPaths.swap(dirs)]; the result is the member and the caller's
    [dirs] after the call. *)
Definition setLoadPaths (loadPaths dirs : list string)
    : list string * list string :=
  (dirs, loadPaths).

(** The member [cachedObjects] of [class ObjectCache] is a map keyed by
    [m->getModuleIdentifier()]; a cached buffer is its bytes and its
    identifier. *)

(** [void ObjectCache::notifyObjectCompiled(const llvm::Module *m,
                                            llvm::MemoryBufferRef objBuffer)]:
    the module is given by its identifier, the buffer by its bytes and its
    identifier; the cache keeps a copy. *)
Definition notifyObjectCompiled
    (cachedObjects : gmap string (list Byte.byte * string))
    (m : string) (objBuffer : list Byte.byte * string)
    : gmap string (list Byte.byte * string) :=
  <[m := (fst objBuffer, snd objBuffer)]> cachedObjects.

(** [std::unique_ptr<llvm::MemoryBuffer>
     ObjectCache::getObject(const llvm::Module *m)]: [None] is [nullptr]. *)
Definition getObject (cachedObjects : gmap string (list Byte.byte * string))
    (m : string) : option (list Byte.byte * string) :=
  match cachedObjects !! m with
  | None => None
  | Some cached => Some (fst cached, snd cached)
  end.

End jit.


(* ===================================================================== *)
(** ** Reference definitions and the inputs of the examples *)
(* ===================================================================== *)

(** A root environment and a child of it, both made by [createEnv]: once
    with nodes as values, as in a namespace, once with unsigned integers. *)
Definition two_scopes : list (Environment ast.Node) :=
  snd (Env.createEnv (snd (Env.createEnv [] None)) (Some 0)).

Definition two_unsigned_scopes : list (Environment N) :=
  snd (Env.createEnv (snd (Env.createEnv [] None)) (Some 0)).

Definition node_one : ast.Node :=
  Some (ast.Keyword (LocationRange_UnknownLocation "user") "one").

Definition node_two : ast.Node :=
  Some (ast.Number (LocationRange_UnknownLocation "user") "2" false false).

(** The byte offsets of the newlines of [s], in buffer order, [n] being the
    offset of the first byte of [s]: what the offset cache is meant to hold,
    written without any narrowing. *)
Fixpoint newlineOffsets (s : list Byte.byte) (n : N) : list N :=
  match s with
  | [] => []
  | b :: rest =>
      if Byte.eqb b Byte.x0a
      then n :: newlineOffsets rest (n + 1)
      else newlineOffsets rest (n + 1)
  end.

(** The line pointer as the specification words it, over the newline
    offsets [offs]: the buffer start for lines 0 and 1, one past the
    [(L-1)]-th newline for a later line that exists, null otherwise. *)
Definition linePointer_spec (offs : list N) (L : N) : option N :=
  if (L <=? 1)%N then Some 0%N
  else match offs !! N.to_nat (L - 2) with
       | Some off => Some (off + 1)%N
       | None => None
       end.

(** The state of the offset cache of a buffer between calls: not built yet,
    or built by an earlier line lookup. *)
Definition cache_ok (sb : SourceMgr.SrcBuffer) : Prop :=
  SourceMgr.offsetCache sb = None
  \/ SourceMgr.offsetCache sb
     = Some (newlineOffsets (SourceMgr.buffer sb) 0).

(** The buffer ["aa\nbb\ncc"]. *)
Definition three_lines : SourceMgr.MemoryBuffer :=
  [Byte.x61; Byte.x61; Byte.x0a; Byte.x62; Byte.x62; Byte.x0a;
   Byte.x63; Byte.x63].

(** A source manager that holds [n] empty buffers, and the one with
    [2^32 - 1] of them. *)
Definition sm_with_buffers (n : nat) : SourceMgr.t :=
  SourceMgr.mk
    (replicate n
       (SourceMgr.freshSrcBuffer [] (LocationRange_UnknownLocation "user")))
    ∅ [].

Definition crowded_sm : SourceMgr.t :=
  sm_with_buffers (N.to_nat (2 ^ 32 - 1)).

(** A source manager without buffers. *)
Definition empty_sm (paths : list string) : SourceMgr.t :=
  SourceMgr.mk [] ∅ paths.

(** The path that [findFileInLoadPath] probes for the load path [dir],
    [path] being the relative path of the namespace. *)
Definition candidatePath (separator path suffix dir : string) : string :=
  (((dir +:+ separator) +:+ path) +:+ ".") +:+ suffix.

(** The read of a path fails: [getFile] answers with an error code. *)
Definition read_fails
    (getFile : string -> SourceMgr.error_code + SourceMgr.MemoryBuffer)
    (p : string) : Prop :=
  exists err, getFile p = inl err.

(** A namespace name with every ['.'] replaced by the path separator, as the
    specification words the relative path. *)
Fixpoint dotsToSeparator (separator : string) (name : string) : string :=
  match name with
  | EmptyString => EmptyString
  | String.String x rest =>
      if Ascii.eqb x "."%char
      then separator +:+ dotsToSeparator separator rest
      else String.String x (dotsToSeparator separator rest)
  end.

(** A POSIX host: the separator is ["/"], [native] turns every backslash
    into a slash, the suffix is ["srn"], and the only file is
    ["/tmp/b/x/y.srn"], which holds ["aa\nbb\ncc"]. *)
Definition posix_separator : string := "/".

Definition posix_native (p : string) : string :=
  SourceMgr.std_replace "\"%char "/"%char p.

Definition srn_suffix : string := "srn".

Definition one_file_getFile (p : string)
    : SourceMgr.error_code + SourceMgr.MemoryBuffer :=
  if String.eqb p "/tmp/b/x/y.srn" then inr three_lines else inl 2%N.

(** A reader that rejects every buffer. *)
Definition rejecting_read (buf : SourceMgr.MemoryBuffer) (ns : string)
    (fname : option string) : errors.Error + ast.Ast :=
  inl (errors.make errors.InvalidCharacterForSymbol
         (LocationRange_UnknownLocation ns)).

(** A source manager with [n] load paths, each of them ["/tmp/b"], and the
    one with [2^32] of them. *)
Definition sm_with_load_paths (n : nat) : SourceMgr.t :=
  SourceMgr.mk [] ∅ (replicate n "/tmp/b"%string).

Definition crowded_paths_sm : SourceMgr.t :=
  sm_with_load_paths (N.to_nat (2 ^ 32)).

(** No list of the tree holds a null node.  The forms of a [Namespace] node
    are not looked at: its [toString] does not visit them. *)
Fixpoint noNullNodes (e : ast.Expression) : bool :=
  match e with
  | ast.List _ elements =>
      (fix all (ns : list (option ast.Expression)) : bool :=
         match ns with
         | [] => true
         | None :: _ => false
         | Some n :: rest => noNullNodes n && all rest
         end) elements
  | _ => true
  end.

(** The stores that the operations of [environment.h] build: the empty
    store, a new environment whose parent is null or exists already, and an
    insertion into an environment that exists. *)
Inductive built_store {V : Type} : list (Environment V) -> Prop :=
| built_empty : built_store []
| built_createEnv store par :
    built_store store ->
    (forall p, par = Some p -> p < length store) ->
    built_store (snd (Env.createEnv store par))
| built_insert_symbol store self key value :
    built_store store ->
    self < length store ->
    built_store (snd (Env.insert_symbol store self key value)).


(* ===================================================================== *)
(** * Properties *)
(* ===================================================================== *)

(** ** Error display *)

Lemma log_appends_msg (e : errors.Error) (os : string) :
  errors.log e os = os +:+ errors.msg e.
Proof. reflexivity. Qed.

Lemma defaultMessage_table :
  map errors.defaultMessage
      [errors.NSLoadError; errors.NSAddToSMError;
       errors.InvalidDigitForNumber; errors.TwoFloatPoints;
       errors.InvalidCharacterForSymbol; errors.EOFWhileScaningAList;
       errors.FINALERROR]
  = errors.errorMessages_init ++ [EmptyString].
Proof. reflexivity. Qed.

(** C8, as stated, fails: an [NSLoadError] made without a message displays
    the empty text and not the default message of its kind. *)
Lemma C8_default_message_not_displayed :
  errors.getMessage
    (errors.make errors.NSLoadError (LocationRange_UnknownLocation "user"))
  = EmptyString
  /\ errors.defaultMessage errors.NSLoadError
     = "Faild to load the namespace"%string
  /\ errors.getMessage
       (errors.make errors.NSLoadError (LocationRange_UnknownLocation "user"))
     <> errors.defaultMessage errors.NSLoadError.
Proof. repeat split. discriminate. Qed.

(** C8, amended: an error made with a message displays that message, on any
    stream after what the stream already holds; an error made without one
    displays the empty text, whatever its kind: [log] writes the [msg] field
    and does not consult [errorMessages]. *)
Theorem C8_display_is_msg_field
    (t : errors.Type_) (loc : LocationRange) (m os : string) :
  errors.getMessage (errors.make_msg t loc m) = m
  /\ errors.log (errors.make_msg t loc m) os = os +:+ m
  /\ errors.getMessage (errors.make t loc) = EmptyString
  /\ errors.log (errors.make t loc) os = os +:+ EmptyString.
Proof. repeat split. Qed.

(** ** Runtime type discrimination of AST nodes *)

(** C10: an [Error] node reports the type id [KEYWORD]; [Error::classof]
    accepts exactly the expressions whose type id is [KEYWORD], so it agrees
    with [Keyword::classof] on every expression: it accepts every [Keyword]
    node, and [Keyword::classof] accepts every [Error] node. *)
Theorem C10_Error_typed_as_Keyword
    (loc : LocationRange) (msg : string) (tag : option (LocationRange * string))
    (kloc : LocationRange) (kname : string) :
  ast.getType (ast.Error loc msg tag) = ast.KEYWORD
  /\ (forall e, ast.Error_classof e = true <-> ast.getType e = ast.KEYWORD)
  /\ (forall e, ast.Error_classof e = ast.Keyword_classof e)
  /\ ast.getType (ast.Error loc msg tag) = ast.getType (ast.Keyword kloc kname)
  /\ ast.Error_classof (ast.Keyword kloc kname) = true
  /\ ast.Keyword_classof (ast.Error loc msg tag) = true.
Proof.
  repeat split; try reflexivity.
  - unfold ast.Error_classof. intros Hc. by apply bool_decide_eq_true in Hc.
  - unfold ast.Error_classof. intros Ht. by apply bool_decide_eq_true.
Qed.

(** ** Namespace::ExpandTree *)

(** C4: whatever the compilation phase of the engine, [ExpandTree] returns
    success, the tree becomes the old tree followed by the forms of [ast] in
    their order (so the old forms keep their places), the caller's [ast] is
    left empty and nothing else of the namespace changes; under [Parse] the
    same holds. *)
Theorem C4_ExpandTree_appends (ns : Namespace.t) (ast : ast.Ast) :
  let '(err, ns', ast') := Namespace.ExpandTree ns ast in
  err = None
  /\ Namespace.tree ns' = Namespace.tree ns ++ ast
  /\ take (length (Namespace.tree ns)) (Namespace.tree ns') = Namespace.tree ns
  /\ drop (length (Namespace.tree ns)) (Namespace.tree ns') = ast
  /\ ast' = []
  /\ Namespace.environments ns' = Namespace.environments ns
  /\ Namespace.name ns' = Namespace.name ns
  /\ Namespace.filename ns' = Namespace.filename ns
  /\ Namespace.engine ns' = Namespace.engine ns.
Proof.
  unfold Namespace.ExpandTree, Namespace.insert_end_moved.
  case_bool_decide; simpl;
    (repeat split; [by rewrite take_app_length | by rewrite drop_app_length]).
Qed.

(** ** The Symbol constructor *)

Lemma find_first_delimiter (ch : ascii) (a b : string) :
  ast.find ch a = None ->
  ast.find ch (a +:+ String.String ch b) = Some (String.length a).
Proof.
  induction a as [|x a IH]; simpl.
  - intros _. by rewrite Ascii.eqb_refl.
  - destruct (Ascii.eqb x ch); [discriminate|].
    destruct (ast.find ch a); [discriminate|].
    intros _. by rewrite IH.
Qed.

Lemma substr_whole (s : string) (n : nat) :
  String.length s <= n -> ast.substr 0 n s = s.
Proof.
  unfold ast.substr. revert n.
  induction s as [|x s IH]; intros [|n] Hn; simpl in *; try done; try lia.
  rewrite IH; [done | lia].
Qed.

Lemma substr_prefix (a s : string) :
  ast.substr 0 (String.length a) (a +:+ s) = a.
Proof.
  unfold ast.substr.
  induction a as [|x a IH]; simpl.
  - by destruct s.
  - by rewrite IH.
Qed.

Lemma substr_after_delimiter (ch : ascii) (a b : string) (n : nat) :
  String.length b <= n ->
  ast.substr (String.length a + 1) n (a +:+ String.String ch b) = b.
Proof.
  intros Hn. induction a as [|x a IH]; simpl.
  - by apply substr_whole.
  - exact IH.
Qed.

Lemma length_append (a b : string) :
  String.length (a +:+ b) = String.length a + String.length b.
Proof. induction a as [|x a IH]; simpl; [done | by rewrite IH]. Qed.

(** C5: a lexeme [a/b], where [a] holds no ['/'], gives the namespace part
    [a] and the name [b] whatever the current namespace is; a lexeme without
    ['/'] gives the current namespace and the whole lexeme. *)
Theorem C5_Symbol_split
    (loc : LocationRange) (a b lexeme currentNS : string) :
  (ast.find "/"%char a = None ->
   ast.Symbol_ctor loc (a +:+ "/" +:+ b) currentNS = ast.Symbol loc b a)
  /\ (ast.find "/"%char lexeme = None ->
      ast.Symbol_ctor loc lexeme currentNS = ast.Symbol loc lexeme currentNS).
Proof.
  split; intros Hfind; unfold ast.Symbol_ctor.
  - change (a +:+ "/" +:+ b) with (a +:+ String.String "/"%char b).
    rewrite (find_first_delimiter _ _ _ Hfind).
    rewrite substr_prefix, substr_after_delimiter; [done|].
    rewrite length_append. simpl. lia.
  - by rewrite Hfind.
Qed.

Lemma C5_Symbol_split_witness :
  ast.Symbol_ctor (LocationRange_UnknownLocation "user") "core/map" "user"
  = ast.Symbol (LocationRange_UnknownLocation "user") "map" "core"
  /\ ast.Symbol_ctor (LocationRange_UnknownLocation "user") "map" "user"
     = ast.Symbol (LocationRange_UnknownLocation "user") "map" "user".
Proof.
  destruct (C5_Symbol_split (LocationRange_UnknownLocation "user")
              "core" "map" "map" "user") as [Hq Hu].
  split; [apply Hq | apply Hu]; reflexivity.
Defined.

(** ** Environments *)

Section EnvironmentProperties.
Context {V : Type} `{ValueType V}.
Implicit Types (store s : list (Environment V)) (env : Environment V).

(** On a well-formed store the depth bound is never reached: any fuel above
    the address gives the same result, and there is one. *)
Lemma lookup_fuel_enough store key :
  Env.wf_store store ->
  forall f1 f2 self,
    self < f1 -> self < f2 -> self < length store ->
    Env.lookup_fuel f1 store self key = Env.lookup_fuel f2 store self key
    /\ is_Some (Env.lookup_fuel f1 store self key).
Proof.
  intros Hwf. induction f1 as [|f1 IH]; intros f2 self H1 H2 Hlen; [lia|].
  destruct f2 as [|f2]; [lia|]. simpl.
  destruct (store !! self) as [env|] eqn:Hself.
  - destruct (to_bool (Env.StringMap_lookup (pairs env) key));
      [split; [done | by eexists]|].
    destruct (parent env) as [p|] eqn:Hp; [|split; [done | by eexists]].
    pose proof (Hwf _ _ _ Hself Hp). apply IH; lia.
  - apply lookup_ge_None in Hself. lia.
Qed.

Lemma lookup_returns store self key :
  Env.wf_store store -> self < length store ->
  is_Some (Env.lookup store self key).
Proof.
  intros Hwf Hlen. unfold Env.lookup.
  by apply (lookup_fuel_enough store key Hwf _ (length store) self).
Qed.

(** One step of [lookup], free of the depth bound. *)
Lemma lookup_step store self env key :
  Env.wf_store store -> store !! self = Some env ->
  Env.lookup store self key =
    if to_bool (Env.StringMap_lookup (pairs env) key)
    then Some (Some (Env.StringMap_lookup (pairs env) key))
    else match parent env with
         | Some p => Env.lookup store p key
         | None => Some None
         end.
Proof.
  intros Hwf Hself. unfold Env.lookup.
  pose proof (lookup_lt_Some _ _ _ Hself) as Hlen.
  destruct (lookup_fuel_enough store key Hwf (length store) (S self) self)
    as [-> _]; [lia..|].
  simpl. rewrite Hself.
  destruct (to_bool (Env.StringMap_lookup (pairs env) key)); [done|].
  destruct (parent env) as [p|] eqn:Hp; [|done].
  pose proof (Hwf _ _ _ Hself Hp).
  apply (lookup_fuel_enough store key Hwf); lia.
Qed.

Lemma insert_symbol_length store self key v :
  length (snd (Env.insert_symbol store self key v)) = length store.
Proof. apply length_alter. Qed.

Lemma insert_symbol_self store self env key v :
  store !! self = Some env ->
  snd (Env.insert_symbol store self key v) !! self
  = Some (mkEnvironment (parent env) (<[key := v]> (pairs env))).
Proof. intros Hself. simpl. by rewrite list_lookup_alter_eq, Hself. Qed.

Lemma insert_symbol_other store self other key v :
  self <> other ->
  snd (Env.insert_symbol store self key v) !! other = store !! other.
Proof. intros Hne. simpl. by rewrite list_lookup_alter_ne. Qed.

Lemma insert_symbol_wf store self key v :
  Env.wf_store store -> Env.wf_store (snd (Env.insert_symbol store self key v)).
Proof.
  intros Hwf i env p Hi Hp. simpl in Hi.
  destruct (decide (self = i)) as [->|Hne].
  - rewrite list_lookup_alter_eq in Hi.
    destruct (store !! i) as [env0|] eqn:Hi0; simplify_eq/=.
    by eapply Hwf.
  - rewrite list_lookup_alter_ne in Hi by done. by eapply Hwf.
Qed.

(** Stores built by [createEnv] from the empty store are well formed. *)
Lemma createEnv_wf store (par : option nat) :
  Env.wf_store store ->
  (forall p, par = Some p -> p < length store) ->
  Env.wf_store (snd (Env.createEnv store par)).
Proof.
  intros Hwf Hpar i env p Hi Hp. simpl in Hi.
  apply lookup_snoc_Some in Hi as [[Hlt Hi] | [-> <-]].
  - by eapply Hwf.
  - simpl in Hp. by apply Hpar.
Qed.

Lemma StringMap_lookup_insert (m : gmap string V) key v :
  Env.StringMap_lookup (<[key := v]> m) key = v.
Proof. unfold Env.StringMap_lookup. by rewrite lookup_insert_eq. Qed.

(** A binding whose value converts to [true] is what [lookup] returns in the
    environment that holds it. *)
Lemma lookup_local store self env key v :
  Env.wf_store store -> store !! self = Some env ->
  pairs env !! key = Some v -> to_bool v = true ->
  Env.lookup store self key = Some (Some v).
Proof.
  intros Hwf Hself Hkey Hv. rewrite (lookup_step _ _ _ _ Hwf Hself).
  unfold Env.StringMap_lookup. by rewrite Hkey, Hv.
Qed.

(** Without such a binding [lookup] is the parent's [lookup], or
    [std::nullopt] at the root. *)
Lemma lookup_walks store self env key :
  Env.wf_store store -> store !! self = Some env ->
  to_bool (Env.StringMap_lookup (pairs env) key) = false ->
  Env.lookup store self key =
    match parent env with
    | Some p => Env.lookup store p key
    | None => Some None
    end.
Proof.
  intros Hwf Hself Hv. rewrite (lookup_step _ _ _ _ Hwf Hself). by rewrite Hv.
Qed.

(** Shadowing for values that convert to [true]: the child sees its own
    binding and the parent keeps its own.  In general [lookup] returns the
    local binding when one exists with a value that converts to [true], and
    otherwise continues with the parent (or answers [std::nullopt] at the
    root); [insert_symbol] succeeds, writes the binding into the environment
    it is called on, leaves every other environment as it is, and a later
    write to the same key replaces the earlier one. *)
Theorem shadowing_of_true_values
    store (p ch : nat) (penv cenv : Environment V) (x : string) (v1 v2 : V) :
  Env.wf_store store ->
  store !! p = Some penv ->
  store !! ch = Some cenv ->
  parent cenv = Some p ->
  to_bool v1 = true ->
  to_bool v2 = true ->
  let store1 := snd (Env.insert_symbol store p x v1) in
  let store2 := snd (Env.insert_symbol store1 ch x v2) in
  (Env.lookup store2 ch x = Some (Some v2)
   /\ Env.lookup store2 p x = Some (Some v1))
  /\ (forall s self env key v,
        Env.wf_store s -> s !! self = Some env ->
        pairs env !! key = Some v -> to_bool v = true ->
        Env.lookup s self key = Some (Some v))
  /\ (forall s self env key,
        Env.wf_store s -> s !! self = Some env ->
        to_bool (Env.StringMap_lookup (pairs env) key) = false ->
        Env.lookup s self key =
          match parent env with
          | Some q => Env.lookup s q key
          | None => Some None
          end)
  /\ (forall s self env key v,
        s !! self = Some env ->
        fst (Env.insert_symbol s self key v) = true
        /\ snd (Env.insert_symbol s self key v) !! self
           = Some (mkEnvironment (parent env) (<[key := v]> (pairs env)))
        /\ (forall other, self <> other ->
              snd (Env.insert_symbol s self key v) !! other = s !! other))
  /\ (forall s self env key v v',
        s !! self = Some env ->
        snd (Env.insert_symbol (snd (Env.insert_symbol s self key v))
                               self key v') !! self
        = Some (mkEnvironment (parent env) (<[key := v']> (pairs env)))).
Proof.
  intros Hwf Hp Hch Hparent Hv1 Hv2 store1 store2.
  assert (Hne : p <> ch) by (pose proof (Hwf _ _ _ Hch Hparent); lia).
  assert (Hwf2 : Env.wf_store store2) by by do 2 apply insert_symbol_wf.
  repeat split.
  - eapply lookup_local; [done | | | done].
    + subst store2. apply insert_symbol_self.
      subst store1. by rewrite insert_symbol_other.
    + apply lookup_insert_eq.
  - eapply lookup_local; [done | | | done].
    + subst store2. rewrite insert_symbol_other by done.
      subst store1. by apply insert_symbol_self.
    + apply lookup_insert_eq.
  - intros. by eapply lookup_local.
  - intros. by eapply lookup_walks.
  - by apply insert_symbol_self.
  - intros. by apply insert_symbol_other.
  - intros s self env key v v' Hself.
    erewrite insert_symbol_self; [|by apply insert_symbol_self].
    simpl. by rewrite insert_insert_eq.
Qed.

End EnvironmentProperties.

Lemma two_scopes_wf : Env.wf_store two_scopes.
Proof.
  unfold two_scopes. apply createEnv_wf.
  - apply createEnv_wf; [|done]. by intros i env p Hi.
  - intros p [= <-]. simpl. lia.
Qed.

Lemma shadowing_of_true_nodes :
  let store1 := snd (Env.insert_symbol two_scopes 0 "x" node_one) in
  let store2 := snd (Env.insert_symbol store1 1 "x" node_two) in
  Env.lookup store2 1 "x" = Some (Some node_two)
  /\ Env.lookup store2 0 "x" = Some (Some node_one).
Proof.
  apply (shadowing_of_true_values two_scopes 0 1
           (mkEnvironment None ∅) (mkEnvironment (Some 0) ∅)
           "x" node_one node_two);
    [exact two_scopes_wf | reflexivity..].
Defined.

(** C6 at the failing input: the parent binds ["x"] to a value that
    converts to [true] and the child binds ["x"] to one that converts to
    [false] (the null node; [0] with unsigned values).  The binding is in
    the child's own map, yet the child's [lookup] answers with the binding
    of the parent, where the claim, and the comment of [insert_symbol],
    promise the child's. *)
Lemma C6_false_binding_does_not_shadow :
  (let store1 := snd (Env.insert_symbol two_scopes 0 "x" node_one) in
   let store2 := snd (Env.insert_symbol store1 1 "x" ast.EmptyNode) in
   (exists cenv, store2 !! 1 = Some cenv
                 /\ pairs cenv !! "x" = Some ast.EmptyNode)
   /\ Env.lookup store2 1 "x" = Some (Some node_one)
   /\ Env.lookup store2 1 "x" <> Some (Some ast.EmptyNode))
  /\ (let store1 := snd (Env.insert_symbol two_unsigned_scopes 0 "x" 1%N) in
      let store2 := snd (Env.insert_symbol store1 1 "x" 0%N) in
      (exists cenv, store2 !! 1 = Some cenv /\ pairs cenv !! "x" = Some 0%N)
      /\ Env.lookup store2 1 "x" = Some (Some 1%N)
      /\ Env.lookup store2 1 "x" <> Some (Some 0%N)).
Proof.
  split; (split; [|split]).
  - eexists. split; [reflexivity|]. apply lookup_insert_eq.
  - vm_compute. reflexivity.
  - vm_compute. discriminate.
  - eexists. split; [reflexivity|]. apply lookup_insert_eq.
  - vm_compute. reflexivity.
  - vm_compute. discriminate.
Qed.

(** ** Buffer ids *)

Lemma AddNewSourceBuffer_buffers sm f loc :
  SourceMgr.buffers (snd (SourceMgr.AddNewSourceBuffer sm f loc))
  = SourceMgr.buffers sm ++ [SourceMgr.freshSrcBuffer f loc].
Proof. reflexivity. Qed.

Lemma AddNewSourceBuffer_id sm f loc :
  fst (SourceMgr.AddNewSourceBuffer sm f loc)
  = ((N.of_nat (length (SourceMgr.buffers sm)) + 1) mod 2 ^ 32)%N.
Proof.
  unfold SourceMgr.AddNewSourceBuffer, SourceMgr.static_cast,
    SourceMgr.unsigned_bits. simpl.
  rewrite length_app. simpl. f_equal. lia.
Qed.

Lemma AddNewSourceBuffer_id_small sm f loc :
  (N.of_nat (length (SourceMgr.buffers sm)) + 1 < 2 ^ 32)%N ->
  fst (SourceMgr.AddNewSourceBuffer sm f loc)
  = N.of_nat (length (SourceMgr.buffers
                        (snd (SourceMgr.AddNewSourceBuffer sm f loc)))).
Proof.
  intros Hlt. rewrite AddNewSourceBuffer_id, AddNewSourceBuffer_buffers.
  rewrite N.mod_small by done. rewrite length_app. simpl. lia.
Qed.

Lemma addBuffers_cons sm f loc rest :
  SourceMgr.addBuffers sm ((f, loc) :: rest)
  = SourceMgr.AddNewSourceBuffer sm f loc
    :: SourceMgr.addBuffers (snd (SourceMgr.AddNewSourceBuffer sm f loc)) rest.
Proof. reflexivity. Qed.

Lemma isValidBufferID_spec sm i :
  SourceMgr.isValidBufferID sm i = true
  <-> (1 <= i <= N.of_nat (length (SourceMgr.buffers sm)))%N.
Proof.
  unfold SourceMgr.isValidBufferID.
  rewrite andb_true_iff, negb_true_iff, N.eqb_neq, N.leb_le. lia.
Qed.

(** Below the wrap-around every call returns the new number of buffers,
    which exceeds the number before the run. *)
Lemma addBuffers_ids calls : forall sm,
  (N.of_nat (length (SourceMgr.buffers sm) + length calls) < 2 ^ 32)%N ->
  Forall (fun r => fst r = N.of_nat (length (SourceMgr.buffers (snd r)))
                   /\ (N.of_nat (length (SourceMgr.buffers sm)) < fst r)%N)
         (SourceMgr.addBuffers sm calls)
  /\ StronglySorted N.lt (map fst (SourceMgr.addBuffers sm calls)).
Proof.
  induction calls as [|[f loc] rest IH]; intros sm Hbound.
  - split; constructor.
  - rewrite addBuffers_cons. simpl in Hbound.
    pose proof (AddNewSourceBuffer_id_small sm f loc ltac:(lia)) as Hid.
    pose proof (AddNewSourceBuffer_buffers sm f loc) as Hbufs.
    destruct (SourceMgr.AddNewSourceBuffer sm f loc) as [id sm'].
    simpl in Hid, Hbufs |- *.
    assert (Hlen : length (SourceMgr.buffers sm')
                   = S (length (SourceMgr.buffers sm))).
    { rewrite Hbufs, length_app. simpl. lia. }
    destruct (IH sm') as [Hall Hsorted]; [lia|].
    split.
    + constructor; [simpl; split; [done | lia]|].
      eapply Forall_impl; [exact Hall|]. intros x [Hx1 Hx2]. split; [done|lia].
    + constructor; [done|].
      apply Forall_fmap. eapply Forall_impl; [exact Hall|].
      intros x [_ Hx]. simpl. lia.
Qed.

Lemma sm_with_buffers_next_id (n : nat) f loc :
  fst (SourceMgr.AddNewSourceBuffer (sm_with_buffers n) f loc)
  = ((N.of_nat n + 1) mod 2 ^ 32)%N.
Proof.
  rewrite AddNewSourceBuffer_id. unfold sm_with_buffers. simpl.
  by rewrite length_replicate.
Qed.

(** C3, as stated, fails at the wrap-around of [unsigned]: with [2^32 - 1]
    buffers registered, the next [AddNewSourceBuffer] returns [0], which is
    not a valid id. *)
Lemma C3_id_wraps_to_zero :
  map fst (SourceMgr.addBuffers crowded_sm
             [([], LocationRange_UnknownLocation "user")]) = [0%N]
  /\ Forall (fun r => SourceMgr.isValidBufferID (snd r) (fst r) = false)
            (SourceMgr.addBuffers crowded_sm
               [([], LocationRange_UnknownLocation "user")]).
Proof.
  rewrite addBuffers_cons.
  assert (Hid : fst (SourceMgr.AddNewSourceBuffer crowded_sm []
                       (LocationRange_UnknownLocation "user")) = 0%N).
  { unfold crowded_sm. rewrite sm_with_buffers_next_id, N2Nat.id.
    reflexivity. }
  split.
  - cbn [map SourceMgr.addBuffers]. by rewrite Hid.
  - cbn [SourceMgr.addBuffers]. constructor; [|constructor].
    rewrite Hid. reflexivity.
Qed.

(** C3, amended: in any run of [AddNewSourceBuffer] calls that keeps the
    number of registered buffers below [2^32], the returned ids strictly
    increase, none is zero, each exceeds the number of buffers before the
    run, and immediately after its call each id [i] is the number of
    registered buffers and satisfies [isValidBufferID], that is
    [1 <= i <= number of buffers]. *)
Theorem C3_ids_increase_below_wrap
    (sm : SourceMgr.t)
    (calls : list (SourceMgr.MemoryBuffer * LocationRange)) :
  (N.of_nat (length (SourceMgr.buffers sm) + length calls) < 2 ^ 32)%N ->
  StronglySorted N.lt (map fst (SourceMgr.addBuffers sm calls))
  /\ Forall (fun r =>
               fst r <> 0%N
               /\ (N.of_nat (length (SourceMgr.buffers sm)) < fst r)%N
               /\ fst r = N.of_nat (length (SourceMgr.buffers (snd r)))
               /\ SourceMgr.isValidBufferID (snd r) (fst r) = true
               /\ (1 <= fst r <= N.of_nat (length (SourceMgr.buffers (snd r))))%N)
            (SourceMgr.addBuffers sm calls)
  /\ (forall s i, SourceMgr.isValidBufferID s i = true
                  <-> (1 <= i <= N.of_nat (length (SourceMgr.buffers s)))%N).
Proof.
  intros Hbound. destruct (addBuffers_ids calls sm Hbound) as [Hall Hsorted].
  split; [done|]. split; [|apply isValidBufferID_spec].
  eapply Forall_impl; [exact Hall|]. intros r [Hr1 Hr2].
  assert (1 <= fst r <= N.of_nat (length (SourceMgr.buffers (snd r))))%N
    by lia.
  repeat split; try lia. by apply isValidBufferID_spec.
Qed.

Lemma C3_ids_increase_witness :
  map fst (SourceMgr.addBuffers (empty_sm [])
             [(three_lines, LocationRange_UnknownLocation "user");
              ([], LocationRange_UnknownLocation "user");
              (three_lines, LocationRange_UnknownLocation "user")])
  = [1%N; 2%N; 3%N]
  /\ StronglySorted N.lt
       (map fst (SourceMgr.addBuffers (empty_sm [])
             [(three_lines, LocationRange_UnknownLocation "user");
              ([], LocationRange_UnknownLocation "user");
              (three_lines, LocationRange_UnknownLocation "user")])).
Proof.
  split; [reflexivity|].
  apply (C3_ids_increase_below_wrap (empty_sm [])
           [(three_lines, LocationRange_UnknownLocation "user");
            ([], LocationRange_UnknownLocation "user");
            (three_lines, LocationRange_UnknownLocation "user")]).
  simpl. lia.
Defined.

(** ** The line index *)

Lemma static_cast_small (w n : N) :
  (n < 2 ^ w)%N -> SourceMgr.static_cast w n = n.
Proof. intros Hn. unfold SourceMgr.static_cast. by apply N.mod_small. Qed.

(** When every offset of the buffer fits the element type, the cache that
    [GetOrCreateOffsetCache<T>] fills holds the offsets unchanged. *)
Lemma fill_offsets_fits (w : N) (s : SourceMgr.MemoryBuffer) : forall n,
  (n + N.of_nat (length s) <= 2 ^ w)%N ->
  SourceMgr.fill_offsets w s n = newlineOffsets s n.
Proof.
  induction s as [|b s IH]; intros n Hn; simpl in *; [done|].
  rewrite IH by lia.
  destruct (Byte.eqb b Byte.x0a); [|done].
  rewrite static_cast_small; [done | lia].
Qed.

Lemma newlineOffsets_elem (s : list Byte.byte) : forall n off,
  off ∈ newlineOffsets s n
  <-> exists i, s !! i = Some Byte.x0a /\ off = (n + N.of_nat i)%N.
Proof.
  induction s as [|b s IH]; intros n off; simpl.
  - split; [by intros ?%elem_of_nil | by intros (i & ? & _)].
  - assert (Hrest : off ∈ newlineOffsets s (n + 1)
                    <-> exists i, (b :: s) !! S i = Some Byte.x0a
                                  /\ off = (n + N.of_nat (S i))%N).
    { rewrite IH. split; intros (i & Hi & ->); exists i; (split; [done|lia]). }
    destruct (Byte.eqb b Byte.x0a) eqn:Hb.
    + apply Byte.byte_dec_bl in Hb as ->.
      rewrite elem_of_cons, Hrest. split.
      * intros [->|(i & Hi & ->)]; [exists 0 | exists (S i)];
          (split; [done|lia]).
      * intros ([|i] & Hi & ->); [left; lia | right; by exists i].
    + rewrite Hrest. split.
      * intros (i & Hi & ->). by exists (S i).
      * intros ([|i] & Hi & ->); [|by exists i].
        simpl in Hi. injection Hi as ->.
        by rewrite (Byte.byte_dec_lb eq_refl) in Hb.
Qed.

Lemma newlineOffsets_sorted (s : list Byte.byte) : forall n,
  StronglySorted N.lt (newlineOffsets s n).
Proof.
  induction s as [|b s IH]; intros n; simpl; [constructor|].
  destruct (Byte.eqb b Byte.x0a); [|apply IH].
  constructor; [apply IH|].
  apply Forall_forall. intros off (i & _ & ->)%newlineOffsets_elem. lia.
Qed.

(** The specialised lookup computes the line pointer of the specification
    whenever the buffer size fits the element type, and leaves the cache
    built. *)
Lemma getPointerForLineNumberSpecialized_spec
    (w : N) (sb : SourceMgr.SrcBuffer) (L : N) :
  (N.of_nat (length (SourceMgr.buffer sb)) <= SourceMgr.numeric_limits_max w)%N ->
  cache_ok sb ->
  SourceMgr.getPointerForLineNumberSpecialized w sb L
  = (linePointer_spec (newlineOffsets (SourceMgr.buffer sb) 0) L,
     SourceMgr.mkSrcBuffer (SourceMgr.buffer sb)
       (Some (newlineOffsets (SourceMgr.buffer sb) 0))
       (SourceMgr.importLoc sb)).
Proof.
  intros Hfit Hcache. unfold SourceMgr.numeric_limits_max in Hfit.
  assert (Hpow : (0 < 2 ^ w)%N) by (apply N.neq_0_lt_0, N.pow_nonzero; lia).
  set (offs := newlineOffsets (SourceMgr.buffer sb) 0).
  assert (Hget : SourceMgr.GetOrCreateOffsetCache w (SourceMgr.offsetCache sb)
                   (SourceMgr.buffer sb) = (offs, Some offs)).
  { destruct Hcache as [-> | ->]; simpl; [|done].
    rewrite fill_offsets_fits; [done | lia]. }
  unfold SourceMgr.getPointerForLineNumberSpecialized. rewrite Hget.
  unfold linePointer_spec.
  destruct (N.eqb_spec L 0) as [->|HL0]; simpl; [done|].
  destruct (N.eqb_spec (L - 1) 0) as [HL1|HL1].
  { destruct (N.leb_spec L 1); [done | lia]. }
  destruct (N.leb_spec L 1); [lia|].
  replace (N.to_nat (L - 1 - 1)) with (N.to_nat (L - 2)) by lia.
  destruct (N.ltb_spec (N.of_nat (length offs)) (L - 1)) as [Hout|Hin].
  - rewrite lookup_ge_None_2; [done | lia].
  - destruct (lookup_lt_is_Some_2 offs (N.to_nat (L - 2))) as [off Hoff];
      [lia|].
    rewrite Hoff. rewrite (nth_lookup_Some _ _ _ _ Hoff). done.
Qed.

Lemma getPointerForLineNumber_spec (sb : SourceMgr.SrcBuffer) (L : N) :
  (N.of_nat (length (SourceMgr.buffer sb)) < 2 ^ 64)%N ->
  cache_ok sb ->
  SourceMgr.getPointerForLineNumber sb L
  = (linePointer_spec (newlineOffsets (SourceMgr.buffer sb) 0) L,
     SourceMgr.mkSrcBuffer (SourceMgr.buffer sb)
       (Some (newlineOffsets (SourceMgr.buffer sb) 0))
       (SourceMgr.importLoc sb)).
Proof.
  intros Hsz Hcache. unfold SourceMgr.getPointerForLineNumber.
  repeat (match goal with
          | |- context [(?a <=? ?b)%N] => destruct (N.leb_spec a b)
          end;
          [by apply getPointerForLineNumberSpecialized_spec|]).
  apply getPointerForLineNumberSpecialized_spec; [|done].
  unfold SourceMgr.numeric_limits_max. lia.
Qed.

Lemma newlineOffsets_positions (s : list Byte.byte) (off : N) :
  off ∈ newlineOffsets s 0 <-> s !! N.to_nat off = Some Byte.x0a.
Proof.
  rewrite newlineOffsets_elem. split.
  - intros (i & Hi & ->). by rewrite N.add_0_l, Nat2N.id.
  - intros Hoff. exists (N.to_nat off). split; [done | lia].
Qed.

(** A buffer as [AddNewSourceBuffer] registers it has no cache yet; with the
    [cache_ok] that a lookup leaves behind, every buffer that the source
    manager holds is covered by the theorem below. *)
Lemma freshSrcBuffer_cache_ok (f : SourceMgr.MemoryBuffer) (loc : LocationRange) :
  cache_ok (SourceMgr.freshSrcBuffer f loc).
Proof. by left. Qed.

(** C1: for a buffer whose cache is not built yet or was built by an earlier
    lookup, [getPointerForLineNumber] returns the buffer start for lines 0
    and 1, the offset one past the [(L-1)]-th newline for
    [2 <= L <= newlines + 1], and null when [L - 1] exceeds the number of
    newlines.  The cache it leaves holds the offset of every newline and
    nothing else, in increasing order, and the buffer is otherwise unchanged.
    Every element width that passes the [assert] of the cache, that is,
    that can hold the buffer size, gives the same result as the width
    selected by the size. *)
Theorem C1_line_pointer (sb : SourceMgr.SrcBuffer) (L : N) :
  (N.of_nat (length (SourceMgr.buffer sb)) < 2 ^ 64)%N ->
  cache_ok sb ->
  let offs := newlineOffsets (SourceMgr.buffer sb) 0 in
  let r := fst (SourceMgr.getPointerForLineNumber sb L) in
  let sb' := snd (SourceMgr.getPointerForLineNumber sb L) in
  ((L <= 1)%N -> r = Some 0%N)
  /\ ((2 <= L <= N.of_nat (length offs) + 1)%N ->
      exists off,
        offs !! N.to_nat (L - 2) = Some off
        /\ SourceMgr.buffer sb !! N.to_nat off = Some Byte.x0a
        /\ r = Some (off + 1)%N)
  /\ ((N.of_nat (length offs) < L - 1)%N -> r = None)
  /\ SourceMgr.offsetCache sb' = Some offs
  /\ StronglySorted N.lt offs
  /\ (forall off,
        off ∈ offs <-> SourceMgr.buffer sb !! N.to_nat off = Some Byte.x0a)
  /\ SourceMgr.buffer sb' = SourceMgr.buffer sb
  /\ SourceMgr.importLoc sb' = SourceMgr.importLoc sb
  /\ cache_ok sb'
  /\ (forall w, w ∈ [8%N; 16%N; 32%N; 64%N] ->
        SourceMgr.offsetCache_assert w (SourceMgr.buffer sb) = true ->
        SourceMgr.getPointerForLineNumberSpecialized w sb L
        = SourceMgr.getPointerForLineNumber sb L).
Proof.
  intros Hsz Hcache offs r sb'. subst r sb'.
  rewrite (getPointerForLineNumber_spec sb L Hsz Hcache). fold offs. simpl.
  unfold linePointer_spec.
  split; [|split; [|split]].
  - intros HL. destruct (N.leb_spec L 1); [done | lia].
  - intros HL. destruct (N.leb_spec L 1); [lia|].
    destruct (lookup_lt_is_Some_2 offs (N.to_nat (L - 2))) as [off Hoff];
      [lia|].
    exists off. rewrite Hoff. split; [done|]. split; [|done].
    apply newlineOffsets_positions. by eapply list_elem_of_lookup_2.
  - intros HL. destruct (N.leb_spec L 1); [lia|].
    rewrite lookup_ge_None_2; [done | lia].
  - repeat split.
    + apply newlineOffsets_sorted.
    + by intros ?%newlineOffsets_positions.
    + by intros ?%newlineOffsets_positions.
    + by right.
    + intros w _ Hfit%N.leb_le.
      by apply getPointerForLineNumberSpecialized_spec.
Qed.

Lemma C1_line_pointer_witness :
  fst (SourceMgr.getPointerForLineNumber
         (SourceMgr.freshSrcBuffer three_lines
            (LocationRange_UnknownLocation "user")) 3)
  = Some 6%N.
Proof.
  destruct (C1_line_pointer
              (SourceMgr.freshSrcBuffer three_lines
                 (LocationRange_UnknownLocation "user")) 3)
    as (_ & Hline & _).
  - simpl. lia.
  - left. reflexivity.
  - destruct Hline as (off & Hoff & _ & ->); [simpl; lia|].
    vm_compute in Hoff. by injection Hoff as <-.
Defined.

(** The scenario of the specification: lines 1 to 4 of ["aa\nbb\ncc"]. *)
Example line_pointers_of_three_lines :
  map (fun L => fst (SourceMgr.getPointerForLineNumber
                       (SourceMgr.freshSrcBuffer three_lines
                          (LocationRange_UnknownLocation "user")) L))
      [0%N; 1%N; 2%N; 3%N; 4%N]
  = [Some 0%N; Some 0%N; Some 3%N; Some 6%N; None].
Proof. reflexivity. Qed.

(** ** The load path *)

Section HostProperties.

Variable get_separator : string.
Variable native : string -> string.
Variable DEFAULT_SUFFIX : string.
Variable getFile : string -> SourceMgr.error_code + SourceMgr.MemoryBuffer.
Variable read :
  SourceMgr.MemoryBuffer -> string -> option string -> errors.Error + ast.Ast.

Lemma findFileInLoadPath_loop_spec (path : string) (dirs : list string) :
  forall importedFile,
  let cand := candidatePath get_separator path DEFAULT_SUFFIX in
  match SourceMgr.findFileInLoadPath_loop get_separator DEFAULT_SUFFIX getFile
          path dirs importedFile with
  | (Some newBuf, f, probes) =>
      exists pre dir post,
        dirs = pre ++ dir :: post
        /\ Forall (fun d => read_fails getFile (cand d)) pre
        /\ getFile (cand dir) = inr newBuf
        /\ f = cand dir
        /\ probes = map cand (pre ++ [dir])
  | (None, f, probes) =>
      Forall (fun d => read_fails getFile (cand d)) dirs
      /\ probes = map cand dirs
  end.
Proof.
  induction dirs as [|dir rest IH]; intros importedFile cand; simpl.
  - split; [constructor | done].
  - fold (candidatePath get_separator path DEFAULT_SUFFIX dir). fold cand.
    destruct (getFile (cand dir)) as [err|newBuf] eqn:Hget.
    + specialize (IH (cand dir)). fold cand in IH.
      destruct (SourceMgr.findFileInLoadPath_loop _ _ _ path rest (cand dir))
        as [[[newBuf|] f] probes].
      * destruct IH as (pre & d & post & -> & Hpre & Hd & -> & ->).
        exists (dir :: pre), d, post. repeat split; try done.
        constructor; [by exists err | done].
      * destruct IH as [Hall ->]. split; [|done].
        constructor; [by exists err | done].
    + exists [], dir, rest. repeat split; try done.
Qed.

Lemma hit_excludes_miss (cand : string -> string) (pre post : list string)
    (dir : string) (newBuf : SourceMgr.MemoryBuffer) :
  getFile (cand dir) = inr newBuf ->
  ~ Forall (fun d => read_fails getFile (cand d)) (pre ++ dir :: post).
Proof.
  intros Hhit Hall. apply Forall_app in Hall as [_ Hall].
  apply Forall_cons in Hall as [[err Herr] _]. congruence.
Qed.

(** The result of [findFileInLoadPath] in terms of the load paths that its
    loop ranges over. *)
Lemma findFileInLoadPath_probes (sm : SourceMgr.t) (name importedFile : string) :
  let cand :=
    candidatePath get_separator
      (SourceMgr.convertNamespaceToPath native name) DEFAULT_SUFFIX in
  let '(r, f, probes) :=
    SourceMgr.findFileInLoadPath get_separator native DEFAULT_SUFFIX getFile
      sm name importedFile in
  match r with
  | Some newBuf =>
      exists pre dir post,
        SourceMgr.probedLoadPaths sm = pre ++ dir :: post
        /\ Forall (fun d => read_fails getFile (cand d)) pre
        /\ getFile (cand dir) = inr newBuf
        /\ f = cand dir
        /\ probes = map cand (pre ++ [dir])
  | None =>
      Forall (fun d => read_fails getFile (cand d)) (SourceMgr.probedLoadPaths sm)
      /\ probes = map cand (SourceMgr.probedLoadPaths sm)
  end
  /\ (r = None
      <-> Forall (fun d => read_fails getFile (cand d)) (SourceMgr.probedLoadPaths sm)).
Proof.
  intros cand. unfold SourceMgr.findFileInLoadPath.
  pose proof (findFileInLoadPath_loop_spec
                (SourceMgr.convertNamespaceToPath native name)
                (SourceMgr.probedLoadPaths sm) importedFile) as Hloop.
  simpl in Hloop. fold cand in Hloop.
  destruct (SourceMgr.findFileInLoadPath_loop _ _ _ _ _ _)
    as [[[newBuf|] f] probes].
  - split; [exact Hloop|].
    split; [done|]. intros Hall.
    destruct Hloop as (pre & dir & post & Hdirs & _ & Hhit & _).
    rewrite Hdirs in Hall.
    by destruct (hit_excludes_miss cand pre post dir newBuf Hhit).
  - split; [exact Hloop|].
    split; [by intros _; apply Hloop | done].
Qed.

(** Fewer than [2^32] load paths are all ranged over. *)
Lemma probedLoadPaths_small (sm : SourceMgr.t) :
  (N.of_nat (length (SourceMgr.loadPaths sm)) < 2 ^ 32)%N ->
  SourceMgr.probedLoadPaths sm = SourceMgr.loadPaths sm.
Proof.
  intros Hlt. unfold SourceMgr.probedLoadPaths, SourceMgr.static_cast,
    SourceMgr.unsigned_bits.
  rewrite N.mod_small by done. rewrite Nat2N.id. apply firstn_all.
Qed.

(** On a POSIX host [native] turns every backslash into a slash.  The
    relative path it yields for a namespace name is the name with every dot
    replaced by the separator exactly when the name holds no backslash. *)
Lemma posix_relative_path (name : string) :
  SourceMgr.std_replace "\"%char "/"%char
    (SourceMgr.std_replace "."%char "/"%char name)
  = dotsToSeparator "/" name
  <-> ast.find "\"%char name = None.
Proof.
  induction name as [|x rest IH]; [done|].
  change (dotsToSeparator "/" (String.String x rest))
    with (if Ascii.eqb x "."%char
          then String.String "/"%char (dotsToSeparator "/" rest)
          else String.String x (dotsToSeparator "/" rest)).
  simpl.
  destruct (Ascii.eqb x "."%char) eqn:Hdot.
  - apply Ascii.eqb_eq in Hdot as ->. simpl.
    split.
    + intros [= Heq]. apply IH in Heq. by rewrite Heq.
    + intros Hnone. f_equal. apply IH.
      by destruct (ast.find "\"%char rest).
  - destruct (Ascii.eqb x "\"%char) eqn:Hbs.
    + apply Ascii.eqb_eq in Hbs as ->. split; [by intros [= ?]|done].
    + split.
      * intros [= Heq]. apply IH in Heq. by rewrite Heq.
      * intros Hnone. f_equal. apply IH.
        by destruct (ast.find "\"%char rest).
Qed.

(** C2, amended: over fewer than [2^32] load paths, [findFileInLoadPath]
    probes the candidates of the load paths in their declared order and
    stops at the first one that reads: the result is its content and its
    full path, every load path before it failed to read, and the probes made
    are exactly the candidates up to it.  The null result is returned
    exactly when every candidate fails, after all of them were probed in
    order.  The candidate of a directory is the directory, the separator,
    the relative path of the namespace, a dot and the suffix, and the
    relative path is what [native] makes of the name with every dot replaced
    by a slash.  On a POSIX host, where the separator is the slash and
    [native] turns every backslash into a slash, the relative path is the
    name with every dot replaced by the separator exactly when the name
    holds no backslash. *)
Theorem C2_first_readable_candidate
    (sm : SourceMgr.t) (name importedFile : string) :
  (N.of_nat (length (SourceMgr.loadPaths sm)) < 2 ^ 32)%N ->
  let relativePath := native (SourceMgr.std_replace "."%char "/"%char name) in
  let cand := fun dir : string =>
    (((dir +:+ get_separator) +:+ relativePath) +:+ ".") +:+ DEFAULT_SUFFIX in
  let '(r, f, probes) :=
    SourceMgr.findFileInLoadPath get_separator native DEFAULT_SUFFIX getFile
      sm name importedFile in
  match r with
  | Some newBuf =>
      exists pre dir post,
        SourceMgr.loadPaths sm = pre ++ dir :: post
        /\ Forall (fun d => read_fails getFile (cand d)) pre
        /\ getFile (cand dir) = inr newBuf
        /\ f = cand dir
        /\ probes = map cand (pre ++ [dir])
  | None =>
      Forall (fun d => read_fails getFile (cand d)) (SourceMgr.loadPaths sm)
      /\ probes = map cand (SourceMgr.loadPaths sm)
  end
  /\ (r = None
      <-> Forall (fun d => read_fails getFile (cand d)) (SourceMgr.loadPaths sm))
  /\ (get_separator = "/"%string ->
      (forall p, native p = SourceMgr.std_replace "\"%char "/"%char p) ->
      (relativePath = dotsToSeparator get_separator name
       <-> ast.find "\"%char name = None)).
Proof.
  intros Hsmall relativePath cand.
  pose proof (findFileInLoadPath_probes sm name importedFile) as Hprobes.
  cbv zeta in Hprobes.
  change (candidatePath get_separator
            (SourceMgr.convertNamespaceToPath native name) DEFAULT_SUFFIX)
    with cand in Hprobes.
  rewrite (probedLoadPaths_small sm Hsmall) in Hprobes.
  destruct (SourceMgr.findFileInLoadPath _ _ _ _ _ _ _) as [[r f] probes].
  destruct Hprobes as [Hres Hnone].
  split; [exact Hres|]. split; [exact Hnone|].
  intros Hsep Hnative. subst relativePath.
  rewrite Hsep, Hnative. apply posix_relative_path.
Qed.

End HostProperties.

Lemma C2_first_readable_candidate_witness :
  SourceMgr.findFileInLoadPath posix_separator posix_native srn_suffix
    one_file_getFile (empty_sm ["/tmp/a"; "/tmp/b"]) "x.y" ""
  = (Some three_lines, "/tmp/b/x/y.srn"%string,
     ["/tmp/a/x/y.srn"%string; "/tmp/b/x/y.srn"%string])
  /\ posix_native (SourceMgr.std_replace "."%char "/"%char "x.y")
     = dotsToSeparator posix_separator "x.y".
Proof.
  assert (Hsmall :
    (N.of_nat (length (SourceMgr.loadPaths (empty_sm ["/tmp/a"; "/tmp/b"])))
     < 2 ^ 32)%N) by (simpl; lia).
  pose proof (C2_first_readable_candidate posix_separator posix_native
                srn_suffix one_file_getFile
                (empty_sm ["/tmp/a"; "/tmp/b"]) "x.y" "" Hsmall) as Hc2.
  revert Hc2. cbv zeta.
  destruct (SourceMgr.findFileInLoadPath _ _ _ _ _ _ _)
    as [[[newBuf|] f] probes].
  - intros ((pre & dir & post & Hdirs & Hpre & Hhit & -> & ->) & _ & Hpath).
    split; [|by apply Hpath].
    destruct pre as [|d0 pre].
    { injection Hdirs as <- _. discriminate Hhit. }
    injection Hdirs as <- Hdirs.
    destruct pre as [|d1 pre].
    { injection Hdirs as <- _. vm_compute in Hhit.
      by injection Hhit as <-. }
    injection Hdirs as _ Hdirs. by destruct pre.
  - intros (_ & Hnone & _).
    assert (Hall : Forall
      (fun d => read_fails one_file_getFile
         ((((d +:+ posix_separator)
            +:+ posix_native (SourceMgr.std_replace "."%char "/"%char "x.y"))
           +:+ ".") +:+ srn_suffix))
      (SourceMgr.loadPaths (empty_sm ["/tmp/a"; "/tmp/b"])))
      by by apply Hnone.
    apply Forall_cons in Hall as [_ Hall].
    apply Forall_cons in Hall as [[err Herr] _]. discriminate Herr.
Defined.

Lemma sm_with_load_paths_wrapped (n : nat) :
  N.of_nat n = (2 ^ 32)%N ->
  SourceMgr.probedLoadPaths (sm_with_load_paths n) = [].
Proof.
  intros Hn. unfold SourceMgr.probedLoadPaths, sm_with_load_paths. simpl.
  rewrite length_replicate, Hn.
  change (SourceMgr.static_cast SourceMgr.unsigned_bits (2 ^ 32)) with 0%N.
  apply take_0.
Qed.

Lemma sm_with_load_paths_elem (n : nat) (dir : string) :
  dir ∈ SourceMgr.loadPaths (sm_with_load_paths n) -> dir = "/tmp/b"%string.
Proof. by intros [-> _]%elem_of_replicate. Qed.

(** C2, as stated, fails at the wrap-around of the loop bound: of [2^32]
    load paths none is probed and the result is null, although the candidate
    of every one of them reads. *)
Lemma C2_no_probe_of_crowded_load_path :
  N.of_nat (length (SourceMgr.loadPaths crowded_paths_sm)) = (2 ^ 32)%N
  /\ (forall dir, dir ∈ SourceMgr.loadPaths crowded_paths_sm ->
        one_file_getFile
          (candidatePath posix_separator
             (SourceMgr.convertNamespaceToPath posix_native "x.y")
             srn_suffix dir)
        = inr three_lines)
  /\ SourceMgr.findFileInLoadPath posix_separator posix_native srn_suffix
       one_file_getFile crowded_paths_sm "x.y" ""
     = (None, EmptyString, []).
Proof.
  unfold crowded_paths_sm. split; [|split].
  - unfold sm_with_load_paths, SourceMgr.loadPaths.
    by rewrite length_replicate, N2Nat.id.
  - intros dir ->%sm_with_load_paths_elem. reflexivity.
  - unfold SourceMgr.findFileInLoadPath.
    rewrite sm_with_load_paths_wrapped; [reflexivity | apply N2Nat.id].
Qed.

(** C2, as stated, fails also for a name that holds a backslash: on a POSIX
    host the relative path of [x\y.z] is [x/y/z], which is not the name with
    its dot replaced by the separator, and the file probed is the one of
    [x/y/z]. *)
Example relative_path_of_backslash_name :
  SourceMgr.convertNamespaceToPath posix_native "x\y.z" = "x/y/z"%string
  /\ dotsToSeparator posix_separator "x\y.z" = "x\y/z"%string
  /\ SourceMgr.findFileInLoadPath posix_separator posix_native srn_suffix
       one_file_getFile (empty_sm ["/tmp/a"]) "x\y.z" ""
     = (None, "/tmp/a/x/y/z.srn"%string, ["/tmp/a/x/y/z.srn"%string]).
Proof. by vm_compute. Qed.

(** The scenario of the specification: the file exists only under the
    second load path; both candidates are probed, in order. *)
Example probing_of_two_load_paths :
  SourceMgr.findFileInLoadPath posix_separator posix_native srn_suffix
    one_file_getFile (empty_sm ["/tmp/a"; "/tmp/b"]) "x.y" ""
  = (Some three_lines, "/tmp/b/x/y.srn"%string,
     ["/tmp/a/x/y.srn"%string; "/tmp/b/x/y.srn"%string]).
Proof. reflexivity. Qed.

(** ** readNamespace *)

Section ReadNamespaceProperties.

Variable get_separator : string.
Variable native : string -> string.
Variable DEFAULT_SUFFIX : string.
Variable getFile : string -> SourceMgr.error_code + SourceMgr.MemoryBuffer.
Variable read :
  SourceMgr.MemoryBuffer -> string -> option string -> errors.Error + ast.Ast.

Abbreviation findFileInLoadPath :=
  (SourceMgr.findFileInLoadPath get_separator native DEFAULT_SUFFIX getFile).
Abbreviation readNamespace :=
  (SourceMgr.readNamespace get_separator native DEFAULT_SUFFIX getFile read).

(** The source manager after the two registration steps of [readNamespace]:
    the buffer is appended and the name is recorded under the id. *)
Lemma readNamespace_hit sm name importLoc newBuf importedFile probes :
  findFileInLoadPath sm name EmptyString = (Some newBuf, importedFile, probes) ->
  let bufferId := fst (SourceMgr.AddNewSourceBuffer sm newBuf importLoc) in
  let sm' :=
    SourceMgr.mk
      (SourceMgr.buffers sm ++ [SourceMgr.freshSrcBuffer newBuf importLoc])
      (<[name := bufferId]> (SourceMgr.nsTable sm))
      (SourceMgr.loadPaths sm) in
  readNamespace sm name importLoc =
    if (bufferId =? 0)%N then
      (inl (errors.make_msg errors.NSAddToSMError importLoc
              (SourceMgr.formatv_quoted "Couldn't add namespace '" name)),
       sm')
    else
      match read (SourceMgr.getMemoryBuffer sm' bufferId) name
                 (Some importedFile) with
      | inl err => (inl err, sm')
      | inr maybeAst =>
          (inr (ast.Namespace importLoc name (Some importedFile)
                  maybeAst [mkEnvironment None ∅]),
           sm')
      end.
Proof.
  intros Hfind bufferId sm'. subst bufferId sm'.
  unfold SourceMgr.readNamespace. rewrite Hfind. simpl.
  match goal with |- context [(?i =? 0)%N] => destruct (i =? 0)%N end;
    [done|].
  by destruct (read _ _ _).
Qed.

Lemma readNamespace_miss sm name importLoc importedFile probes :
  findFileInLoadPath sm name EmptyString = (None, importedFile, probes) ->
  readNamespace sm name importLoc =
    (inl (errors.make_msg errors.NSLoadError importLoc
            (SourceMgr.formatv_quoted "Couldn't find namespace '" name)),
     sm).
Proof. intros Hfind. unfold SourceMgr.readNamespace. by rewrite Hfind. Qed.

(** C7, amended: over fewer than [2^32] load paths, and provided the reader
    never reports an [NSLoadError], [readNamespace] returns an [NSLoadError]
    located at [importLoc] exactly when the candidate of every load path
    fails to read; in that case the error carries the message that names the
    namespace, and the source manager comes back as it was: no buffer is
    registered and the namespace index is unchanged.  When the candidate of
    some load path reads, the result is no [NSLoadError] and a buffer is
    registered. *)
Theorem C7_NSLoadError_iff_miss
    (sm : SourceMgr.t) (name : string) (importLoc : LocationRange) :
  (N.of_nat (length (SourceMgr.loadPaths sm)) < 2 ^ 32)%N ->
  (forall buf ns fname e,
     read buf ns fname = inl e -> errors.type e <> errors.NSLoadError) ->
  let relativePath := native (SourceMgr.std_replace "."%char "/"%char name) in
  let cand := fun dir : string =>
    (((dir +:+ get_separator) +:+ relativePath) +:+ ".") +:+ DEFAULT_SUFFIX in
  let miss :=
    Forall (fun d => read_fails getFile (cand d)) (SourceMgr.loadPaths sm) in
  let res := fst (readNamespace sm name importLoc) in
  let sm' := snd (readNamespace sm name importLoc) in
  ((exists e, res = inl e
              /\ errors.type e = errors.NSLoadError
              /\ errors.location e = importLoc)
   <-> miss)
  /\ ((exists e, res = inl e /\ errors.type e = errors.NSLoadError) -> miss)
  /\ (miss ->
      res = inl (errors.make_msg errors.NSLoadError importLoc
                   (SourceMgr.formatv_quoted "Couldn't find namespace '" name))
      /\ sm' = sm
      /\ SourceMgr.buffers sm' = SourceMgr.buffers sm
      /\ SourceMgr.nsTable sm' = SourceMgr.nsTable sm)
  /\ (~ miss ->
      exists pre dir post newBuf,
        SourceMgr.loadPaths sm = pre ++ dir :: post
        /\ Forall (fun d => read_fails getFile (cand d)) pre
        /\ getFile (cand dir) = inr newBuf
        /\ SourceMgr.buffers sm'
           = SourceMgr.buffers sm ++ [SourceMgr.freshSrcBuffer newBuf importLoc]).
Proof.
  intros Hsmall Hread relativePath cand miss res sm'.
  pose proof (findFileInLoadPath_probes get_separator native DEFAULT_SUFFIX
                getFile sm name EmptyString) as Hc2.
  cbv zeta in Hc2.
  change (candidatePath get_separator
            (SourceMgr.convertNamespaceToPath native name) DEFAULT_SUFFIX)
    with cand in Hc2.
  rewrite (probedLoadPaths_small sm Hsmall) in Hc2.
  fold miss in Hc2.
  destruct (findFileInLoadPath sm name EmptyString)
    as [[[newBuf|] importedFile] probes] eqn:Hfind.
  - destruct Hc2 as (Hhit & Hnone).
    assert (Hnomiss : ~ miss) by (intros Hm; by apply Hnone in Hm).
    assert (Hkind : forall e, res = inl e ->
                              errors.type e <> errors.NSLoadError).
    { intros e. subst res.
      rewrite (readNamespace_hit _ _ importLoc _ _ _ Hfind).
      destruct (_ =? 0)%N; simpl; [by intros [= <-]|].
      destruct (read _ _ _) as [err|maybeAst] eqn:Herr; simpl; [|done].
      intros [= <-]. by eapply Hread. }
    split; [split|split; [|split]].
    + intros (e & He & Ht & _). by destruct (Hkind e He).
    + done.
    + intros (e & He & Ht). by destruct (Hkind e He).
    + done.
    + intros _.
      destruct Hhit as (pre & dir & post & Hdirs & Hpre & Hget & _).
      exists pre, dir, post, newBuf. repeat split; try done.
      subst sm'. rewrite (readNamespace_hit _ _ importLoc _ _ _ Hfind).
      destruct (_ =? 0)%N; simpl; [done|].
      by destruct (read _ _ _).
  - destruct Hc2 as (_ & Hnone).
    assert (Hmiss : miss) by by apply Hnone.
    subst res sm'. rewrite (readNamespace_miss _ _ importLoc _ _ Hfind).
    simpl. split; [split|split; [|split]]; try done.
    intros _. by eexists.
Qed.

(** C9: when a file is found, the returned id is not zero and the reader
    fails on the registered buffer, [readNamespace] returns the error of the
    reader, and the source manager it leaves keeps the new buffer at the end
    of the registry and maps the name to the new id: the registration is not
    rolled back. *)
Theorem C9_registration_survives_reader_error
    (sm : SourceMgr.t) (name : string) (importLoc : LocationRange)
    (newBuf : SourceMgr.MemoryBuffer) (importedFile : string)
    (probes : list string) (e : errors.Error) :
  findFileInLoadPath sm name EmptyString = (Some newBuf, importedFile, probes) ->
  let bufferId := fst (SourceMgr.AddNewSourceBuffer sm newBuf importLoc) in
  let sm' :=
    SourceMgr.mk
      (SourceMgr.buffers sm ++ [SourceMgr.freshSrcBuffer newBuf importLoc])
      (<[name := bufferId]> (SourceMgr.nsTable sm))
      (SourceMgr.loadPaths sm) in
  bufferId <> 0%N ->
  read (SourceMgr.getMemoryBuffer sm' bufferId) name (Some importedFile)
    = inl e ->
  readNamespace sm name importLoc = (inl e, sm')
  /\ SourceMgr.buffers sm'
     = SourceMgr.buffers sm ++ [SourceMgr.freshSrcBuffer newBuf importLoc]
  /\ length (SourceMgr.buffers sm') = S (length (SourceMgr.buffers sm))
  /\ SourceMgr.nsTable sm' !! name = Some bufferId
  /\ SourceMgr.isValidBufferID sm' bufferId = true
  /\ ((N.of_nat (length (SourceMgr.buffers sm)) + 1 < 2 ^ 32)%N ->
      bufferId = N.of_nat (length (SourceMgr.buffers sm'))
      /\ SourceMgr.getMemoryBuffer sm' bufferId = newBuf).
Proof.
  intros Hfind bufferId sm' Hid Hread.
  assert (Hlen : length (SourceMgr.buffers sm')
                 = S (length (SourceMgr.buffers sm))).
  { simpl. rewrite length_app. simpl. lia. }
  assert (Hidv : bufferId
                 = ((N.of_nat (length (SourceMgr.buffers sm)) + 1)
                      mod 2 ^ 32)%N)
    by apply AddNewSourceBuffer_id.
  split; [|split; [done|split; [done|split; [|split]]]].
  - rewrite (readNamespace_hit _ _ importLoc _ _ _ Hfind).
    fold bufferId. fold sm'.
    destruct (N.eqb_spec bufferId 0); [done|]. by rewrite Hread.
  - simpl. apply lookup_insert_eq.
  - apply isValidBufferID_spec. rewrite Hlen. split; [lia|].
    rewrite Hidv.
    etrans; [apply N.Div0.mod_le|]. lia.
  - intros Hsmall. rewrite N.mod_small in Hidv by done.
    split; [lia|].
    unfold SourceMgr.getMemoryBuffer.
    replace (N.to_nat (bufferId - 1)) with (length (SourceMgr.buffers sm) + 0)
      by lia.
    simpl. by rewrite app_nth2_plus.
Qed.

End ReadNamespaceProperties.

Lemma C7_NSLoadError_iff_miss_witness :
  fst (SourceMgr.readNamespace posix_separator posix_native srn_suffix
         one_file_getFile rejecting_read (empty_sm ["/tmp/a"]) "x.y"
         (LocationRange_UnknownLocation "user"))
  = inl (errors.make_msg errors.NSLoadError
           (LocationRange_UnknownLocation "user")
           "Couldn't find namespace 'x.y'").
Proof.
  destruct (C7_NSLoadError_iff_miss posix_separator posix_native srn_suffix
              one_file_getFile rejecting_read (empty_sm ["/tmp/a"]) "x.y"
              (LocationRange_UnknownLocation "user"))
    as (_ & _ & Hmiss & _).
  - simpl. lia.
  - intros buf ns fname e [= <-]. discriminate.
  - apply Hmiss. constructor; [|constructor]. exists 2%N. reflexivity.
Defined.

Lemma readNamespace_of_wrapped_load_paths (n : nat) (loc : LocationRange) :
  N.of_nat n = (2 ^ 32)%N ->
  SourceMgr.readNamespace posix_separator posix_native srn_suffix
    one_file_getFile rejecting_read (sm_with_load_paths n) "x.y" loc
  = (inl (errors.make_msg errors.NSLoadError loc
            "Couldn't find namespace 'x.y'"),
     sm_with_load_paths n).
Proof.
  intros Hn.
  apply (readNamespace_miss posix_separator posix_native srn_suffix
           one_file_getFile rejecting_read (sm_with_load_paths n) "x.y" loc
           EmptyString []).
  unfold SourceMgr.findFileInLoadPath.
  by rewrite sm_with_load_paths_wrapped.
Qed.

(** C7, as stated, fails at the wrap-around of the loop bound: with [2^32]
    load paths the candidate of every one of them reads, so a probe of any
    of them would find the file, and yet [readNamespace] returns an
    [NSLoadError] at the import location and registers nothing. *)
Lemma C7_NSLoadError_although_candidates_read :
  N.of_nat (length (SourceMgr.loadPaths crowded_paths_sm)) = (2 ^ 32)%N
  /\ (forall dir, dir ∈ SourceMgr.loadPaths crowded_paths_sm ->
        one_file_getFile
          ((((dir +:+ posix_separator)
             +:+ posix_native (SourceMgr.std_replace "."%char "/"%char "x.y"))
            +:+ ".") +:+ srn_suffix)
        = inr three_lines)
  /\ SourceMgr.readNamespace posix_separator posix_native srn_suffix
       one_file_getFile rejecting_read crowded_paths_sm "x.y"
       (LocationRange_UnknownLocation "user")
     = (inl (errors.make_msg errors.NSLoadError
               (LocationRange_UnknownLocation "user")
               "Couldn't find namespace 'x.y'"),
        crowded_paths_sm).
Proof.
  unfold crowded_paths_sm. split; [|split].
  - unfold sm_with_load_paths, SourceMgr.loadPaths.
    by rewrite length_replicate, N2Nat.id.
  - intros dir ->%sm_with_load_paths_elem. reflexivity.
  - apply readNamespace_of_wrapped_load_paths, N2Nat.id.
Qed.

Lemma C9_registration_survives_witness :
  let r :=
    SourceMgr.readNamespace posix_separator posix_native srn_suffix
      one_file_getFile rejecting_read (empty_sm ["/tmp/a"; "/tmp/b"]) "x.y"
      (LocationRange_UnknownLocation "user") in
  fst r = inl (errors.make errors.InvalidCharacterForSymbol
                 (LocationRange_UnknownLocation "x.y"))
  /\ SourceMgr.buffers (snd r)
     = [SourceMgr.freshSrcBuffer three_lines
          (LocationRange_UnknownLocation "user")]
  /\ SourceMgr.nsTable (snd r) !! "x.y" = Some 1%N.
Proof.
  destruct (C9_registration_survives_reader_error posix_separator
              posix_native srn_suffix one_file_getFile rejecting_read
              (empty_sm ["/tmp/a"; "/tmp/b"]) "x.y"
              (LocationRange_UnknownLocation "user")
              three_lines "/tmp/b/x/y.srn"
              ["/tmp/a/x/y.srn"%string; "/tmp/b/x/y.srn"%string]
              (errors.make errors.InvalidCharacterForSymbol
                 (LocationRange_UnknownLocation "x.y")))
    as (Hres & _ & _ & Htable & _).
  - reflexivity.
  - discriminate.
  - reflexivity.
  - intros r. subst r. rewrite Hres. simpl. split; [done|]. split; [done|].
    exact Htable.
Defined.

(* ===================================================================== *)
(** * Further properties of the code *)
(* ===================================================================== *)

(** ** The line index: caching, bounds, lines *)

Lemma StronglySorted_lookup_lt (l : list N) : forall i j a b,
  StronglySorted N.lt l ->
  l !! i = Some a -> l !! j = Some b -> i < j -> (a < b)%N.
Proof.
  induction l as [|x l IH]; intros i j a b Hs Hi Hj Hij; [done|].
  apply StronglySorted_cons in Hs as [Hall Hs].
  destruct j as [|j]; [lia|]. simpl in Hj.
  destruct i as [|i]; simpl in Hi.
  - injection Hi as <-. by eapply (proj1 (Forall_lookup _ _) Hall).
  - eapply (IH i j); [done..|lia].
Qed.

Lemma StronglySorted_lookup_inv (l : list N) i j a b :
  StronglySorted N.lt l ->
  l !! i = Some a -> l !! j = Some b -> (a < b)%N -> i < j.
Proof.
  intros Hs Hi Hj Hab.
  destruct (decide (i < j)) as [|Hge]; [done|].
  destruct (decide (i = j)) as [->|Hne].
  - rewrite Hi in Hj. injection Hj as ->. lia.
  - pose proof (StronglySorted_lookup_lt l j i b a Hs Hj Hi ltac:(lia)). lia.
Qed.

Lemma newlineOffsets_lookup_newline (s : list Byte.byte) (k : nat) (off : N) :
  newlineOffsets s 0 !! k = Some off ->
  s !! N.to_nat off = Some Byte.x0a /\ (off < N.of_nat (length s))%N.
Proof.
  intros Hk.
  assert (Hnl : s !! N.to_nat off = Some Byte.x0a).
  { apply newlineOffsets_positions. by eapply list_elem_of_lookup_2. }
  split; [done|]. apply lookup_lt_Some in Hnl. lia.
Qed.

Lemma newline_has_index (s : list Byte.byte) (i : nat) :
  s !! i = Some Byte.x0a ->
  exists k, newlineOffsets s 0 !! k = Some (N.of_nat i).
Proof.
  intros Hi. apply list_elem_of_lookup_1, newlineOffsets_positions.
  by rewrite Nat2N.id.
Qed.



(** X2: A line pointer never points past the end of the buffer, and only the
    pointers of lines 0 and 1 are the buffer start. *)
Theorem line_pointer_in_bounds (sb : SourceMgr.SrcBuffer) (L p : N) :
  (N.of_nat (length (SourceMgr.buffer sb)) < 2 ^ 64)%N ->
  cache_ok sb ->
  fst (SourceMgr.getPointerForLineNumber sb L) = Some p ->
  (p <= N.of_nat (length (SourceMgr.buffer sb)))%N
  /\ (p = 0%N <-> (L <= 1)%N).
Proof.
  intros Hsz Hcache.
  rewrite (getPointerForLineNumber_spec sb L Hsz Hcache). simpl.
  unfold linePointer_spec.
  destruct (N.leb_spec L 1) as [HL|HL].
  - intros [= <-]. split; [lia | done].
  - destruct (_ !! _) as [off|] eqn:Hoff; [|done]. intros [= <-].
    apply newlineOffsets_lookup_newline in Hoff as [_ Hlt]. lia.
Qed.

Lemma line_pointer_in_bounds_witness :
  (6 <= N.of_nat (length three_lines))%N /\ (6%N = 0%N <-> (3 <= 1)%N).
Proof.
  apply (line_pointer_in_bounds
           (SourceMgr.freshSrcBuffer three_lines
              (LocationRange_UnknownLocation "user")) 3 6).
  - simpl. lia.
  - left. reflexivity.
  - reflexivity.
Defined.

(** X3: Line numbers that have a pointer are downward closed, and from line 1
    on the pointers strictly increase with the line number. *)
Theorem line_pointers_increase (sb : SourceMgr.SrcBuffer) (L1 L2 p2 : N) :
  (N.of_nat (length (SourceMgr.buffer sb)) < 2 ^ 64)%N ->
  cache_ok sb ->
  (L1 < L2)%N ->
  fst (SourceMgr.getPointerForLineNumber sb L2) = Some p2 ->
  exists p1,
    fst (SourceMgr.getPointerForLineNumber sb L1) = Some p1
    /\ (p1 <= p2)%N
    /\ ((1 <= L1)%N -> (p1 < p2)%N).
Proof.
  intros Hsz Hcache HL.
  rewrite !(getPointerForLineNumber_spec sb _ Hsz Hcache). simpl.
  unfold linePointer_spec.
  destruct (N.leb_spec L2 1) as [HL2|HL2].
  { intros [= <-]. destruct (N.leb_spec L1 1); [|lia].
    exists 0%N. repeat split; lia. }
  destruct (_ !! N.to_nat (L2 - 2)) as [off2|] eqn:Hoff2; [|done].
  intros [= <-].
  destruct (N.leb_spec L1 1) as [HL1|HL1].
  { exists 0%N. repeat split; lia. }
  destruct (lookup_lt_is_Some_2 (newlineOffsets (SourceMgr.buffer sb) 0)
              (N.to_nat (L1 - 2))) as [off1 Hoff1].
  { apply lookup_lt_Some in Hoff2. lia. }
  rewrite Hoff1. exists (off1 + 1)%N. split; [done|].
  pose proof (StronglySorted_lookup_lt _ _ _ _ _
                (newlineOffsets_sorted (SourceMgr.buffer sb) 0)
                Hoff1 Hoff2 ltac:(lia)).
  split; lia.
Qed.

Lemma line_pointers_increase_witness :
  exists p1,
    fst (SourceMgr.getPointerForLineNumber
           (SourceMgr.freshSrcBuffer three_lines
              (LocationRange_UnknownLocation "user")) 2) = Some p1
    /\ (p1 <= 6)%N
    /\ ((1 <= 2)%N -> (p1 < 6)%N).
Proof.
  apply (line_pointers_increase
           (SourceMgr.freshSrcBuffer three_lines
              (LocationRange_UnknownLocation "user")) 2 3 6).
  - simpl. lia.
  - left. reflexivity.
  - lia.
  - reflexivity.
Defined.

(** X4: The text of a line holds no newline: between the pointer of line [L]
    and the byte before the pointer of line [L + 1], which is a newline, no
    byte is a newline; when line [L + 1] has no pointer, no byte from the
    pointer of line [L] to the end of the buffer is one. *)
Theorem line_holds_no_newline (sb : SourceMgr.SrcBuffer) (L p : N) :
  (N.of_nat (length (SourceMgr.buffer sb)) < 2 ^ 64)%N ->
  cache_ok sb ->
  (1 <= L)%N ->
  fst (SourceMgr.getPointerForLineNumber sb L) = Some p ->
  match fst (SourceMgr.getPointerForLineNumber sb (L + 1)) with
  | Some q =>
      (p < q)%N
      /\ SourceMgr.buffer sb !! N.to_nat (q - 1) = Some Byte.x0a
      /\ (forall i, (p <= N.of_nat i < q - 1)%N ->
            SourceMgr.buffer sb !! i <> Some Byte.x0a)
  | None =>
      forall i, (p <= N.of_nat i)%N ->
        SourceMgr.buffer sb !! i <> Some Byte.x0a
  end.
Proof.
  intros Hsz Hcache HL.
  rewrite !(getPointerForLineNumber_spec sb _ Hsz Hcache). simpl.
  set (offs := newlineOffsets (SourceMgr.buffer sb) 0).
  pose proof (newlineOffsets_sorted (SourceMgr.buffer sb) 0) as Hsorted.
  fold offs in Hsorted.
  unfold linePointer_spec.
  destruct (N.leb_spec (L + 1) 1) as [|_]; [lia|].
  replace (N.to_nat (L + 1 - 2)) with (N.to_nat (L - 1)) by lia.
  assert (Hprev : forall i k,
            (p <= N.of_nat i)%N -> offs !! k = Some (N.of_nat i) ->
            fst (SourceMgr.getPointerForLineNumber sb L) = Some p ->
            N.to_nat (L - 1) <= k).
  { intros i k Hpi Hk.
    rewrite (getPointerForLineNumber_spec sb _ Hsz Hcache). simpl.
    fold offs. unfold linePointer_spec.
    destruct (N.leb_spec L 1) as [HL1|HL1]; [lia|].
    destruct (offs !! N.to_nat (L - 2)) as [off1|] eqn:Hoff1; [|done].
    intros [= <-].
    pose proof (StronglySorted_lookup_inv offs _ _ _ _ Hsorted Hoff1 Hk
                  ltac:(lia)).
    lia. }
  intros Hp.
  assert (Hp' : fst (SourceMgr.getPointerForLineNumber sb L) = Some p).
  { by rewrite (getPointerForLineNumber_spec sb _ Hsz Hcache). }
  destruct (offs !! N.to_nat (L - 1)) as [off2|] eqn:Hoff2.
  - destruct (newlineOffsets_lookup_newline _ _ _ Hoff2) as [Hnl _].
    assert (Hpq : (p < off2 + 1)%N).
    { revert Hp. destruct (N.leb_spec L 1) as [HL1|HL1]; [intros [= <-]; lia|].
      destruct (offs !! N.to_nat (L - 2)) as [off1|] eqn:Hoff1; [|done].
      intros [= <-].
      pose proof (StronglySorted_lookup_lt offs _ _ _ _ Hsorted Hoff1 Hoff2
                    ltac:(lia)).
      lia. }
    split; [done|]. split.
    + by replace (off2 + 1 - 1)%N with off2 by lia.
    + intros i Hi Hnewline.
      destruct (newline_has_index _ _ Hnewline) as [k Hk]. fold offs in Hk.
      pose proof (Hprev i k ltac:(lia) Hk Hp').
      pose proof (StronglySorted_lookup_inv offs _ _ _ _ Hsorted Hk Hoff2
                    ltac:(lia)).
      lia.
  - intros i Hi Hnewline.
    destruct (newline_has_index _ _ Hnewline) as [k Hk]. fold offs in Hk.
    pose proof (Hprev i k Hi Hk Hp').
    apply lookup_ge_None in Hoff2. apply lookup_lt_Some in Hk. lia.
Qed.

Lemma line_holds_no_newline_witness :
  (3 < 6)%N
  /\ three_lines !! N.to_nat (6 - 1) = Some Byte.x0a
  /\ (forall i, (3 <= N.of_nat i < 6 - 1)%N ->
        three_lines !! i <> Some Byte.x0a).
Proof.
  apply (line_holds_no_newline
           (SourceMgr.freshSrcBuffer three_lines
              (LocationRange_UnknownLocation "user")) 2 3).
  - simpl. lia.
  - left. reflexivity.
  - lia.
  - reflexivity.
Defined.

(** ** The buffer registry *)

(** X5: Registration is append-only: a valid id stays valid and keeps naming
    the same buffer after any further [AddNewSourceBuffer], which touches
    neither the namespace index nor the load paths; [0] is never valid. *)
Theorem AddNewSourceBuffer_keeps_registered
    (sm : SourceMgr.t) (f : SourceMgr.MemoryBuffer) (loc : LocationRange)
    (i : N) :
  SourceMgr.isValidBufferID sm i = true ->
  let sm' := snd (SourceMgr.AddNewSourceBuffer sm f loc) in
  SourceMgr.isValidBufferID sm' i = true
  /\ is_Some (SourceMgr.buffers sm !! N.to_nat (i - 1))
  /\ SourceMgr.buffers sm' !! N.to_nat (i - 1)
     = SourceMgr.buffers sm !! N.to_nat (i - 1)
  /\ SourceMgr.nsTable sm' = SourceMgr.nsTable sm
  /\ SourceMgr.loadPaths sm' = SourceMgr.loadPaths sm
  /\ SourceMgr.isValidBufferID sm' 0 = false.
Proof.
  intros Hvalid sm'. apply isValidBufferID_spec in Hvalid.
  assert (Hlt : N.to_nat (i - 1) < length (SourceMgr.buffers sm)) by lia.
  subst sm'. rewrite AddNewSourceBuffer_buffers.
  split; [|split; [|split]].
  - apply isValidBufferID_spec. rewrite AddNewSourceBuffer_buffers.
    rewrite length_app. simpl. lia.
  - by apply lookup_lt_is_Some_2.
  - by apply lookup_app_l.
  - done.
Qed.

Lemma AddNewSourceBuffer_keeps_registered_witness :
  SourceMgr.isValidBufferID
    (snd (SourceMgr.AddNewSourceBuffer
            (snd (SourceMgr.AddNewSourceBuffer (empty_sm []) three_lines
                    (LocationRange_UnknownLocation "user")))
            [] (LocationRange_UnknownLocation "user"))) 1 = true.
Proof.
  apply (AddNewSourceBuffer_keeps_registered
           (snd (SourceMgr.AddNewSourceBuffer (empty_sm []) three_lines
                   (LocationRange_UnknownLocation "user")))
           [] (LocationRange_UnknownLocation "user") 1).
  reflexivity.
Defined.

(** X6: Below the wrap-around of the id, the returned id is the 1-based
    position of the buffer just registered, which holds the given bytes and
    import location and has no line cache yet. *)
Theorem AddNewSourceBuffer_id_names_new_buffer
    (sm : SourceMgr.t) (f : SourceMgr.MemoryBuffer) (loc : LocationRange) :
  (N.of_nat (length (SourceMgr.buffers sm)) + 1 < 2 ^ 32)%N ->
  let id := fst (SourceMgr.AddNewSourceBuffer sm f loc) in
  let sm' := snd (SourceMgr.AddNewSourceBuffer sm f loc) in
  SourceMgr.buffers sm' !! N.to_nat (id - 1)
  = Some (SourceMgr.mkSrcBuffer f None loc)
  /\ SourceMgr.isValidBufferID sm' id = true
  /\ SourceMgr.isValidBufferID sm id = false.
Proof.
  intros Hsmall id sm'.
  assert (Hid : id = (N.of_nat (length (SourceMgr.buffers sm)) + 1)%N).
  { subst id. rewrite AddNewSourceBuffer_id. by apply N.mod_small. }
  subst sm'. split; [|split].
  - rewrite AddNewSourceBuffer_buffers, Hid.
    apply list_lookup_middle. lia.
  - apply isValidBufferID_spec. rewrite AddNewSourceBuffer_buffers, length_app.
    simpl. lia.
  - destruct (SourceMgr.isValidBufferID sm id) eqn:Hv; [|done].
    apply isValidBufferID_spec in Hv. lia.
Qed.

Lemma AddNewSourceBuffer_id_names_new_buffer_witness :
  SourceMgr.buffers
    (snd (SourceMgr.AddNewSourceBuffer (empty_sm []) three_lines
            (LocationRange_UnknownLocation "user")))
    !! N.to_nat (fst (SourceMgr.AddNewSourceBuffer (empty_sm []) three_lines
                        (LocationRange_UnknownLocation "user")) - 1)
  = Some (SourceMgr.mkSrcBuffer three_lines None
            (LocationRange_UnknownLocation "user")).
Proof.
  apply (AddNewSourceBuffer_id_names_new_buffer (empty_sm []) three_lines
           (LocationRange_UnknownLocation "user")).
  simpl. lia.
Defined.

(** ** The load path and readNamespace *)

Lemma std_replace_fixed (old_value new_value : ascii) (s : string) :
  Ascii.eqb new_value old_value = false ->
  SourceMgr.std_replace old_value new_value
    (SourceMgr.std_replace old_value new_value s)
  = SourceMgr.std_replace old_value new_value s.
Proof.
  intros Hne. induction s as [|x s IH]; simpl; [done|].
  rewrite IH. destruct (Ascii.eqb x old_value) eqn:Hx.
  - by rewrite Hne.
  - by rewrite Hx.
Qed.

Lemma std_replace_no_old (old_value new_value : ascii) (s : string) :
  Ascii.eqb new_value old_value = false ->
  ast.find old_value (SourceMgr.std_replace old_value new_value s) = None.
Proof.
  intros Hne. induction s as [|x s IH]; simpl; [done|].
  rewrite IH. destruct (Ascii.eqb x old_value) eqn:Hx.
  - by rewrite Hne.
  - by rewrite Hx.
Qed.

Lemma std_replace_length (old_value new_value : ascii) (s : string) :
  String.length (SourceMgr.std_replace old_value new_value s)
  = String.length s.
Proof. induction s as [|x s IH]; simpl; [done | by rewrite IH]. Qed.

Section LoadPathProperties.

Variable get_separator : string.
Variable native : string -> string.
Variable DEFAULT_SUFFIX : string.
Variable getFile : string -> SourceMgr.error_code + SourceMgr.MemoryBuffer.
Variable read :
  SourceMgr.MemoryBuffer -> string -> option string -> errors.Error + ast.Ast.

Abbreviation findFileInLoadPath' :=
  (SourceMgr.findFileInLoadPath get_separator native DEFAULT_SUFFIX getFile).
Abbreviation readNamespace' :=
  (SourceMgr.readNamespace get_separator native DEFAULT_SUFFIX getFile read).

(** X7: Namespace names that differ only in writing ['/'] for ['.'] are not
    told apart: they have the same relative path, and the search of the load
    path probes the same files and returns the same result for both.  The
    path handed to [native] holds no ['.'] and is as long as the name. *)
Theorem dots_and_slashes_resolve_alike
    (sm : SourceMgr.t) (name1 name2 importedFile : string) :
  SourceMgr.std_replace "."%char "/"%char name1
  = SourceMgr.std_replace "."%char "/"%char name2 ->
  SourceMgr.convertNamespaceToPath native name1
  = SourceMgr.convertNamespaceToPath native name2
  /\ findFileInLoadPath' sm name1 importedFile
     = findFileInLoadPath' sm name2 importedFile
  /\ findFileInLoadPath' sm (SourceMgr.std_replace "."%char "/"%char name1)
       importedFile
     = findFileInLoadPath' sm name1 importedFile
  /\ ast.find "."%char (SourceMgr.std_replace "."%char "/"%char name1) = None
  /\ String.length (SourceMgr.std_replace "."%char "/"%char name1)
     = String.length name1.
Proof.
  intros Hsame.
  assert (Hpath : SourceMgr.convertNamespaceToPath native name1
                  = SourceMgr.convertNamespaceToPath native name2).
  { unfold SourceMgr.convertNamespaceToPath. by rewrite Hsame. }
  split; [done|]. split; [|split; [|split]].
  - unfold SourceMgr.findFileInLoadPath. by rewrite Hpath.
  - unfold SourceMgr.findFileInLoadPath, SourceMgr.convertNamespaceToPath.
    by rewrite std_replace_fixed.
  - by apply std_replace_no_old.
  - apply std_replace_length.
Qed.

(** X8: The out-parameter [importedFile] always comes back holding the last
    path that was probed, and is untouched when nothing was probed; the
    probes are candidates of an initial part of the load paths, in order;
    a returned buffer is what [getFile] reads at the returned path; and with
    no load paths the result is null without any probe. *)
Theorem findFileInLoadPath_out_parameter
    (sm : SourceMgr.t) (name importedFile : string) :
  let cand :=
    candidatePath get_separator
      (SourceMgr.convertNamespaceToPath native name) DEFAULT_SUFFIX in
  let '(r, f, probes) := findFileInLoadPath' sm name importedFile in
  f = default importedFile (last probes)
  /\ probes `prefix_of` map cand (SourceMgr.loadPaths sm)
  /\ (forall newBuf, r = Some newBuf -> getFile f = inr newBuf)
  /\ (SourceMgr.loadPaths sm = [] ->
      r = None /\ f = importedFile /\ probes = []).
Proof.
  intros cand.
  assert (Hloop : forall dirs f0,
    let '(r, f, probes) :=
      SourceMgr.findFileInLoadPath_loop get_separator DEFAULT_SUFFIX getFile
        (SourceMgr.convertNamespaceToPath native name) dirs f0 in
    f = default f0 (last probes)
    /\ probes `prefix_of` map cand dirs
    /\ (forall newBuf, r = Some newBuf -> getFile f = inr newBuf)
    /\ (dirs = [] -> r = None /\ f = f0 /\ probes = [])).
  { induction dirs as [|dir rest IH]; intros f0; simpl; [done|].
    fold (candidatePath get_separator
            (SourceMgr.convertNamespaceToPath native name) DEFAULT_SUFFIX dir).
    fold cand.
    destruct (getFile (cand dir)) as [err|newBuf] eqn:Hget.
    - specialize (IH (cand dir)).
      destruct (SourceMgr.findFileInLoadPath_loop _ _ _ _ rest (cand dir))
        as [[r f] probes].
      destruct IH as (Hf & Hpre & Hbuf & _). simpl.
      split; [|split; [|split]]; [| by apply prefix_cons | done | done].
      rewrite Hf, last_cons. by destruct (last probes).
    - split; [done|]. split; [|split]; [| by intros ? [= <-] | done].
      apply prefix_cons, prefix_nil. }
  unfold SourceMgr.findFileInLoadPath.
  specialize (Hloop (SourceMgr.probedLoadPaths sm) importedFile).
  destruct (SourceMgr.findFileInLoadPath_loop _ _ _ _ _ _) as [[r f] probes].
  destruct Hloop as (Hf & Hpre & Hbuf & Hnil).
  split; [done|]. split; [|split; [done|]].
  - etrans; [exact Hpre|]. unfold SourceMgr.probedLoadPaths.
    set (e := N.to_nat _).
    exists (map cand (drop e (SourceMgr.loadPaths sm))).
    by rewrite <- map_app, take_drop.
  - intros Hempty. apply Hnil. unfold SourceMgr.probedLoadPaths.
    by rewrite Hempty.
Qed.

(** The search depends on the source manager through its load paths only,
    and [readNamespace] never changes them. *)
Lemma findFileInLoadPath_loadPaths (sm1 sm2 : SourceMgr.t) name importedFile :
  SourceMgr.loadPaths sm1 = SourceMgr.loadPaths sm2 ->
  findFileInLoadPath' sm1 name importedFile
  = findFileInLoadPath' sm2 name importedFile.
Proof.
  intros Hpaths.
  unfold SourceMgr.findFileInLoadPath, SourceMgr.probedLoadPaths.
  by rewrite Hpaths.
Qed.

Lemma readNamespace_hit_state sm name importLoc newBuf importedFile probes :
  findFileInLoadPath' sm name EmptyString
  = (Some newBuf, importedFile, probes) ->
  snd (readNamespace' sm name importLoc)
  = SourceMgr.mk
      (SourceMgr.buffers sm ++ [SourceMgr.freshSrcBuffer newBuf importLoc])
      (<[name := fst (SourceMgr.AddNewSourceBuffer sm newBuf importLoc)]>
         (SourceMgr.nsTable sm))
      (SourceMgr.loadPaths sm).
Proof.
  intros Hfind.
  rewrite (readNamespace_hit _ _ _ _ _ _ _ importLoc _ _ _ Hfind).
  destruct (_ =? 0)%N; [done|]. by destruct (read _ _ _).
Qed.

(** X9: Whatever its outcome, [readNamespace] only adds: the load paths are
    unchanged, the buffers registered before are still there at the same
    positions and at most one is appended, every valid id stays valid, and
    no name other than the one read changes in the namespace index. *)
Theorem readNamespace_only_adds
    (sm : SourceMgr.t) (name : string) (importLoc : LocationRange) :
  let sm' := snd (readNamespace' sm name importLoc) in
  SourceMgr.loadPaths sm' = SourceMgr.loadPaths sm
  /\ SourceMgr.buffers sm `prefix_of` SourceMgr.buffers sm'
  /\ length (SourceMgr.buffers sm') <= S (length (SourceMgr.buffers sm))
  /\ (forall i, SourceMgr.isValidBufferID sm i = true ->
        SourceMgr.isValidBufferID sm' i = true)
  /\ (forall other, other <> name ->
        SourceMgr.nsTable sm' !! other = SourceMgr.nsTable sm !! other).
Proof.
  intros sm'. subst sm'.
  destruct (findFileInLoadPath' sm name EmptyString)
    as [[[newBuf|] importedFile] probes] eqn:Hfind.
  - rewrite (readNamespace_hit_state _ _ importLoc _ _ _ Hfind). simpl.
    split; [done|]. split; [by apply prefix_app_r|].
    split; [rewrite length_app; simpl; lia|]. split.
    + intros i Hi. apply isValidBufferID_spec in Hi.
      apply isValidBufferID_spec. simpl. rewrite length_app. simpl. lia.
    + intros other Hne. by apply lookup_insert_ne.
  - rewrite (readNamespace_miss _ _ _ _ _ _ _ importLoc _ _ Hfind). simpl.
    repeat split; [done | lia | done].
Qed.

(** X10: Once a file is found the buffer is registered and the name recorded
    under the returned id before anything can fail.  When the id is [0]
    the result is an [NSAddToSMError] at the import location, and the index
    is left mapping the name to [0], which is not a valid id; any other id
    is valid for the registry that comes back. *)
Theorem readNamespace_registers_before_failing
    (sm : SourceMgr.t) (name : string) (importLoc : LocationRange)
    (newBuf : SourceMgr.MemoryBuffer) (importedFile : string)
    (probes : list string) :
  findFileInLoadPath' sm name EmptyString
  = (Some newBuf, importedFile, probes) ->
  let id := fst (SourceMgr.AddNewSourceBuffer sm newBuf importLoc) in
  let res := fst (readNamespace' sm name importLoc) in
  let sm' := snd (readNamespace' sm name importLoc) in
  SourceMgr.buffers sm'
  = SourceMgr.buffers sm ++ [SourceMgr.mkSrcBuffer newBuf None importLoc]
  /\ SourceMgr.nsTable sm' !! name = Some id
  /\ id = ((N.of_nat (length (SourceMgr.buffers sm)) + 1) mod 2 ^ 32)%N
  /\ (id = 0%N ->
      res = inl (errors.make_msg errors.NSAddToSMError importLoc
                   (SourceMgr.formatv_quoted "Couldn't add namespace '" name))
      /\ SourceMgr.isValidBufferID sm' id = false)
  /\ (id <> 0%N -> SourceMgr.isValidBufferID sm' id = true).
Proof.
  intros Hfind id res sm'.
  assert (Hid : id = ((N.of_nat (length (SourceMgr.buffers sm)) + 1)
                        mod 2 ^ 32)%N) by apply AddNewSourceBuffer_id.
  subst sm'. rewrite (readNamespace_hit_state _ _ importLoc _ _ _ Hfind).
  simpl. fold id.
  split; [done|]. split; [apply lookup_insert_eq|]. split; [done|]. split.
  - intros H0. split; [|by rewrite H0].
    subst res. rewrite (readNamespace_hit _ _ _ _ _ _ _ importLoc _ _ _ Hfind).
    fold id. by rewrite H0.
  - intros Hne. apply isValidBufferID_spec. simpl. rewrite length_app. simpl.
    split; [lia|]. rewrite Hid. etrans; [apply N.Div0.mod_le|]. lia.
Qed.

(** X11: Reading a namespace again registers a second buffer under the next id
    and re-points the name to it; the first buffer stays registered and its
    id stays valid, and other names are not touched. *)
Theorem readNamespace_again_latest_wins
    (sm : SourceMgr.t) (name : string) (loc1 loc2 : LocationRange)
    (newBuf : SourceMgr.MemoryBuffer) (importedFile : string)
    (probes : list string) :
  findFileInLoadPath' sm name EmptyString
  = (Some newBuf, importedFile, probes) ->
  (N.of_nat (length (SourceMgr.buffers sm)) + 2 < 2 ^ 32)%N ->
  let n := N.of_nat (length (SourceMgr.buffers sm)) in
  let sm1 := snd (readNamespace' sm name loc1) in
  let sm2 := snd (readNamespace' sm1 name loc2) in
  SourceMgr.nsTable sm1 !! name = Some (n + 1)%N
  /\ SourceMgr.nsTable sm2 !! name = Some (n + 2)%N
  /\ SourceMgr.buffers sm2
     = SourceMgr.buffers sm
       ++ [SourceMgr.mkSrcBuffer newBuf None loc1;
           SourceMgr.mkSrcBuffer newBuf None loc2]
  /\ SourceMgr.isValidBufferID sm2 (n + 1) = true
  /\ SourceMgr.isValidBufferID sm2 (n + 2) = true
  /\ (forall other, other <> name ->
        SourceMgr.nsTable sm2 !! other = SourceMgr.nsTable sm !! other).
Proof.
  intros Hfind Hsmall n sm1 sm2.
  assert (Hsm1 : sm1 = SourceMgr.mk
            (SourceMgr.buffers sm ++ [SourceMgr.freshSrcBuffer newBuf loc1])
            (<[name := (n + 1)%N]> (SourceMgr.nsTable sm))
            (SourceMgr.loadPaths sm)).
  { subst sm1. rewrite (readNamespace_hit_state _ _ loc1 _ _ _ Hfind).
    rewrite AddNewSourceBuffer_id, N.mod_small by (subst n; lia). done. }
  assert (Hfind1 : findFileInLoadPath' sm1 name EmptyString
                   = (Some newBuf, importedFile, probes)).
  { rewrite <- Hfind. apply findFileInLoadPath_loadPaths. by rewrite Hsm1. }
  assert (Hlen1 : N.of_nat (length (SourceMgr.buffers sm1)) = (n + 1)%N).
  { rewrite Hsm1. simpl. rewrite length_app. simpl. subst n. lia. }
  assert (Hsm2 : sm2 = SourceMgr.mk
            (SourceMgr.buffers sm1 ++ [SourceMgr.freshSrcBuffer newBuf loc2])
            (<[name := (n + 2)%N]> (SourceMgr.nsTable sm1))
            (SourceMgr.loadPaths sm1)).
  { subst sm2. rewrite (readNamespace_hit_state _ _ loc2 _ _ _ Hfind1).
    rewrite AddNewSourceBuffer_id, Hlen1, N.mod_small by (subst n; lia).
    do 2 f_equal. lia. }
  rewrite Hsm2, Hsm1. simpl.
  split; [apply lookup_insert_eq|]. split; [apply lookup_insert_eq|].
  split; [by rewrite <- app_assoc|].
  split; [|split].
  - apply isValidBufferID_spec. simpl. rewrite !length_app. simpl.
    subst n. lia.
  - apply isValidBufferID_spec. simpl. rewrite !length_app. simpl.
    subst n. lia.
  - intros other Hne. by rewrite !lookup_insert_ne.
Qed.

End LoadPathProperties.

Lemma dots_and_slashes_resolve_alike_witness :
  SourceMgr.findFileInLoadPath posix_separator posix_native srn_suffix
    one_file_getFile (empty_sm ["/tmp/a"; "/tmp/b"]) "x.y" ""
  = SourceMgr.findFileInLoadPath posix_separator posix_native srn_suffix
      one_file_getFile (empty_sm ["/tmp/a"; "/tmp/b"]) "x/y" "".
Proof.
  apply (dots_and_slashes_resolve_alike posix_separator posix_native
           srn_suffix one_file_getFile (empty_sm ["/tmp/a"; "/tmp/b"])
           "x.y" "x/y" "").
  reflexivity.
Defined.

Lemma readNamespace_registers_before_failing_witness :
  SourceMgr.nsTable
    (snd (SourceMgr.readNamespace posix_separator posix_native srn_suffix
            one_file_getFile rejecting_read (empty_sm ["/tmp/a"; "/tmp/b"])
            "x.y" (LocationRange_UnknownLocation "user")))
    !! "x.y"
  = Some 1%N.
Proof.
  apply (readNamespace_registers_before_failing posix_separator posix_native
           srn_suffix one_file_getFile rejecting_read
           (empty_sm ["/tmp/a"; "/tmp/b"]) "x.y"
           (LocationRange_UnknownLocation "user") three_lines
           "/tmp/b/x/y.srn"
           ["/tmp/a/x/y.srn"%string; "/tmp/b/x/y.srn"%string]).
  reflexivity.
Defined.

Lemma readNamespace_again_latest_wins_witness :
  SourceMgr.nsTable
    (snd (SourceMgr.readNamespace posix_separator posix_native srn_suffix
            one_file_getFile rejecting_read
            (snd (SourceMgr.readNamespace posix_separator posix_native
                    srn_suffix one_file_getFile rejecting_read
                    (empty_sm ["/tmp/a"; "/tmp/b"]) "x.y"
                    (LocationRange_UnknownLocation "user")))
            "x.y" (LocationRange_UnknownLocation "repl")))
    !! "x.y"
  = Some 2%N.
Proof.
  apply (readNamespace_again_latest_wins posix_separator posix_native
           srn_suffix one_file_getFile rejecting_read
           (empty_sm ["/tmp/a"; "/tmp/b"]) "x.y"
           (LocationRange_UnknownLocation "user")
           (LocationRange_UnknownLocation "repl") three_lines
           "/tmp/b/x/y.srn"
           ["/tmp/a/x/y.srn"%string; "/tmp/b/x/y.srn"%string]).
  - reflexivity.
  - simpl. lia.
Defined.

(** ** Environments: scoping *)

Section EnvironmentScoping.
Context {V : Type} `{ValueType V}.
Implicit Types (store : list (Environment V)) (env : Environment V).

(** What [lookup] reads of an environment for a key: its parent pointer and
    the value [StringMap::lookup] returns. *)
Lemma lookup_fuel_agree (P : nat -> Prop) store store' key :
  (forall i, P i ->
     (fun env => (parent env, Env.StringMap_lookup (pairs env) key))
       <$> store' !! i
     = (fun env => (parent env, Env.StringMap_lookup (pairs env) key))
       <$> store !! i) ->
  (forall i env p, P i -> store !! i = Some env -> parent env = Some p -> P p) ->
  forall fuel i, P i ->
    Env.lookup_fuel fuel store' i key = Env.lookup_fuel fuel store i key.
Proof.
  intros Hview Hclosed. induction fuel as [|fuel IH]; intros i Hi; [done|].
  simpl. specialize (Hview i Hi).
  destruct (store !! i) as [env|] eqn:Hsi,
           (store' !! i) as [env'|] eqn:Hsi'; simpl in Hview;
    try discriminate; [|done].
  injection Hview as Hparent Hvalue. rewrite Hvalue, Hparent.
  destruct (to_bool (Env.StringMap_lookup (pairs env) key)); [done|].
  destruct (parent env) as [p|] eqn:Hp; [|done].
  apply IH. by eapply Hclosed.
Qed.

(** X12: [insert_symbol] is local: it changes no [lookup] of another key,
    anywhere, and no [lookup] at all in the environments created before the
    one written to, its ancestors among them. *)
Theorem insert_symbol_is_local
    store (self other : nat) (key key' : string) (v : V) :
  Env.wf_store store ->
  other < self \/ key' <> key ->
  Env.lookup (snd (Env.insert_symbol store self key v)) other key'
  = Env.lookup store other key'.
Proof.
  intros Hwf Hcase. unfold Env.lookup.
  rewrite insert_symbol_length.
  destruct Hcase as [Hlt | Hkey].
  - apply (lookup_fuel_agree (fun i => i < self)); [| |done].
    + intros i Hi. by rewrite insert_symbol_other by lia.
    + intros i env p Hi Hsi Hp. pose proof (Hwf _ _ _ Hsi Hp). lia.
  - apply (lookup_fuel_agree (fun _ => True)); [|done|done].
    intros i _. destruct (decide (self = i)) as [->|Hne].
    + destruct (store !! i) as [env|] eqn:Hsi.
      * rewrite (insert_symbol_self _ _ _ _ _ Hsi). simpl.
        unfold Env.StringMap_lookup. by rewrite lookup_insert_ne.
      * simpl. by rewrite list_lookup_alter_eq, Hsi.
    + by rewrite insert_symbol_other.
Qed.

(** X13: A key that no environment of the store binds is found nowhere:
    [lookup] answers [std::nullopt] from every environment. *)
Theorem lookup_of_unbound_key store (self : nat) (key : string) :
  Env.wf_store store ->
  to_bool (default_value : V) = false ->
  (forall i env, store !! i = Some env -> pairs env !! key = None) ->
  self < length store ->
  Env.lookup store self key = Some None.
Proof.
  intros Hwf Hdefault Hunbound.
  induction (lt_wf self) as [self _ IH]. intros Hlen.
  destruct (lookup_lt_is_Some_2 store self Hlen) as [env Hself].
  rewrite (lookup_walks _ _ _ _ Hwf Hself).
  - destruct (parent env) as [p|] eqn:Hp; [|done].
    pose proof (Hwf _ _ _ Hself Hp). apply IH; lia.
  - unfold Env.StringMap_lookup. by rewrite (Hunbound _ _ Hself).
Qed.

(** X14: A new environment sees what its parent sees, a new root sees nothing,
    and creating it changes no [lookup] of the environments that exist; the
    store stays well formed and the new address is the old size. *)
Theorem createEnv_scope store (par : option nat) (key : string) :
  Env.wf_store store ->
  to_bool (default_value : V) = false ->
  (forall p, par = Some p -> p < length store) ->
  let addr := fst (Env.createEnv store par) in
  let store' := snd (Env.createEnv store par) in
  addr = length store
  /\ Env.wf_store store'
  /\ store' !! addr = Some (mkEnvironment par ∅)
  /\ (forall i, i < length store ->
        Env.lookup store' i key = Env.lookup store i key)
  /\ Env.lookup store' addr key
     = match par with
       | Some p => Env.lookup store p key
       | None => Some None
       end.
Proof.
  intros Hwf Hdefault Hpar addr store'.
  assert (Hwf' : Env.wf_store store') by by apply createEnv_wf.
  assert (Hnew : store' !! addr = Some (mkEnvironment par ∅)).
  { subst store' addr. simpl. by apply list_lookup_middle. }
  assert (Hold : forall i, i < length store ->
            Env.lookup store' i key = Env.lookup store i key).
  { intros i Hi. unfold Env.lookup.
    destruct (lookup_fuel_enough store' key Hwf' (length store')
                (length store) i) as [-> _].
    - subst store'. simpl. rewrite length_app. simpl. lia.
    - done.
    - subst store'. simpl. rewrite length_app. simpl. lia.
    - apply (lookup_fuel_agree (fun i => i < length store)); [| |done].
      + intros j Hj. subst store'. simpl. by rewrite lookup_app_l.
      + intros j env p Hj Hsj Hp. pose proof (Hwf _ _ _ Hsj Hp). lia. }
  split; [done|]. split; [done|]. split; [done|]. split; [done|].
  rewrite (lookup_walks _ _ _ _ Hwf' Hnew).
  - simpl. destruct par as [p|]; [|done]. apply Hold. by apply Hpar.
  - simpl. unfold Env.StringMap_lookup. by rewrite lookup_empty.
Qed.

End EnvironmentScoping.

Lemma insert_symbol_is_local_witness :
  Env.lookup
    (snd (Env.insert_symbol
            (snd (Env.insert_symbol two_scopes 0 "x" node_one))
            1 "x" node_two))
    0 "x"
  = Env.lookup (snd (Env.insert_symbol two_scopes 0 "x" node_one)) 0 "x".
Proof.
  apply (insert_symbol_is_local
           (snd (Env.insert_symbol two_scopes 0 "x" node_one))
           1 0 "x" "x" node_two).
  - apply insert_symbol_wf, two_scopes_wf.
  - left. lia.
Defined.

Lemma lookup_of_unbound_key_witness :
  Env.lookup two_scopes 1 "y" = Some None.
Proof.
  apply (lookup_of_unbound_key two_scopes 1 "y").
  - exact two_scopes_wf.
  - reflexivity.
  - intros [|[|i]] env; simpl; intros [= <-]; apply lookup_empty.
  - simpl. lia.
Defined.

Lemma createEnv_scope_witness :
  Env.lookup
    (snd (Env.createEnv
            (snd (Env.insert_symbol two_scopes 0 "x" node_one)) (Some 1)))
    2 "x"
  = Env.lookup (snd (Env.insert_symbol two_scopes 0 "x" node_one)) 1 "x".
Proof.
  apply (createEnv_scope
           (snd (Env.insert_symbol two_scopes 0 "x" node_one))
           (Some 1) "x").
  - apply insert_symbol_wf, two_scopes_wf.
  - reflexivity.
  - intros p [= <-]. simpl. lia.
Defined.

(** ** Namespaces over their lifetime *)

Lemma Namespace_calls_state (cs : list Namespace.Call) : forall ns,
  Namespace.tree (Namespace.calls ns cs)
  = Namespace.tree ns
    ++ concat (map (fun c => match c with
                             | Namespace.CallExpandTree a => a
                             | Namespace.CallCreateEnv _ => []
                             end) cs)
  /\ Namespace.environments (Namespace.calls ns cs)
     = Namespace.environments ns
       ++ concat (map (fun c => match c with
                                | Namespace.CallExpandTree _ => []
                                | Namespace.CallCreateEnv p =>
                                    [mkEnvironment p ∅]
                                end) cs)
  /\ Namespace.name (Namespace.calls ns cs) = Namespace.name ns
  /\ Namespace.filename (Namespace.calls ns cs) = Namespace.filename ns
  /\ Namespace.engine (Namespace.calls ns cs) = Namespace.engine ns
  /\ Namespace.symbolList (Namespace.calls ns cs) = Namespace.symbolList ns.
Proof.
  induction cs as [|c cs IH]; intros ns; simpl.
  - by rewrite !app_nil_r.
  - destruct (IH (Namespace.call ns c)) as (-> & -> & -> & -> & -> & ->).
    destruct c as [p|a]; simpl.
    + by rewrite <- app_assoc.
    + unfold Namespace.ExpandTree, Namespace.insert_end_moved.
      case_bool_decide; simpl; by rewrite <- app_assoc.
Qed.

(** X15: Through any sequence of [createEnv] and [ExpandTree] calls on a
    constructed namespace, the root environment exists (the [assert] of
    [getRootEnv] holds) and stays the parentless, empty environment made by
    the constructor; the tree is the concatenation of the expanded asts in
    call order; the environments are the root followed by one empty
    environment per [createEnv], in call order, each with the parent it was
    given; name, file name and engine never change. *)
Theorem Namespace_lifetime_invariants
    (engine : JIT) (name : string) (filename : option string)
    (cs : list Namespace.Call) :
  let ns := Namespace.calls (Namespace.make engine name filename) cs in
  Namespace.getRootEnv ns = Some (mkEnvironment None ∅)
  /\ Namespace.getTree ns
     = concat (map (fun c => match c with
                             | Namespace.CallExpandTree a => a
                             | Namespace.CallCreateEnv _ => []
                             end) cs)
  /\ Namespace.environments ns
     = mkEnvironment None ∅
       :: concat (map (fun c => match c with
                                | Namespace.CallExpandTree _ => []
                                | Namespace.CallCreateEnv p =>
                                    [mkEnvironment p ∅]
                                end) cs)
  /\ Namespace.name ns = name
  /\ Namespace.filename ns = filename
  /\ Namespace.engine ns = engine.
Proof.
  intros ns. subst ns.
  destruct (Namespace_calls_state cs (Namespace.make engine name filename))
    as (Htree & Henvs & -> & -> & -> & _).
  unfold Namespace.getRootEnv, Namespace.getTree. rewrite Htree, Henvs.
  by repeat split.
Qed.

(** ** AST nodes: printing and building *)

Lemma append_assoc (a b c : string) : (a +:+ b) +:+ c = a +:+ (b +:+ c).
Proof.
  induction a as [|x a IH]; [done|].
  change (String.String x ((a +:+ b) +:+ c) = String.String x (a +:+ b +:+ c)).
  by f_equal.
Qed.

Lemma find_splits (ch : ascii) (s : string) : forall i n,
  ast.find ch s = Some i ->
  String.length s <= n ->
  s = ast.substr 0 i s +:+ String.String ch (ast.substr (i + 1) n s)
  /\ ast.find ch (ast.substr 0 i s) = None.
Proof.
  unfold ast.substr.
  induction s as [|x s IH]; intros i n Hfind Hn; simpl in *; [done|].
  destruct (Ascii.eqb x ch) eqn:Hx.
  - injection Hfind as <-. apply Ascii.eqb_eq in Hx as ->. simpl.
    split; [|done].
    change (String.String ch s = String.String ch (substring 0 n s)).
    f_equal. symmetry. apply (substr_whole s n). lia.
  - destruct (ast.find ch s) as [i'|] eqn:Hrest; [|done].
    injection Hfind as <-. simpl.
    destruct (IH i' n eq_refl ltac:(lia)) as [Hs Hnone].
    split; [|by rewrite Hx, Hnone].
    change (String.String x s
            = String.String x
                (substring 0 i' s
                 +:+ String.String ch (substring (i' + 1) n s))).
    by f_equal.
Qed.

(** X16: A symbol prints its fully qualified name: the lexeme itself when it
    holds a ['/'], and the current namespace, ['/'] and the lexeme
    otherwise.  When the current namespace holds no ['/'], reading the
    printed name back gives the same symbol in any current namespace. *)
Theorem Symbol_prints_qualified_name
    (loc : LocationRange) (lexeme currentNS : string) :
  let fq :=
    match ast.find "/"%char lexeme with
    | Some _ => lexeme
    | None => ast.makeFQSymbolName currentNS lexeme
    end in
  ast.toString (ast.Symbol_ctor loc lexeme currentNS)
  = Some (("<Symbol " +:+ fq) +:+ ">")
  /\ (ast.find "/"%char currentNS = None ->
      forall otherNS,
        ast.Symbol_ctor loc fq otherNS
        = ast.Symbol_ctor loc lexeme currentNS).
Proof.
  intros fq. subst fq. unfold ast.Symbol_ctor at 1 3.
  destruct (ast.find "/"%char lexeme) as [i|] eqn:Hfind.
  - destruct (find_splits _ _ _ (String.length lexeme) Hfind (le_n _))
      as [Hsplit Hnone].
    split.
    + unfold ast.toString.
      remember (ast.substr 0 i lexeme) as a.
      remember (ast.substr (i + 1) (String.length lexeme) lexeme) as b.
      rewrite Hsplit. by rewrite !append_assoc.
    + intros _ otherNS. unfold ast.Symbol_ctor. by rewrite Hfind.
  - split; [unfold ast.toString, ast.makeFQSymbolName; by rewrite !append_assoc|].
    intros Hns otherNS. unfold ast.Symbol_ctor, ast.makeFQSymbolName.
    rewrite append_assoc.
    change ("/" +:+ lexeme) with (String.String "/"%char lexeme).
    rewrite (find_first_delimiter _ _ _ Hns).
    rewrite substr_prefix, substr_after_delimiter; [done|].
    rewrite length_append. simpl. lia.
Qed.

Lemma Symbol_prints_qualified_name_witness :
  ast.Symbol_ctor (LocationRange_UnknownLocation "user") "user/map" "repl"
  = ast.Symbol_ctor (LocationRange_UnknownLocation "user") "map" "user".
Proof.
  destruct (Symbol_prints_qualified_name
              (LocationRange_UnknownLocation "user") "map" "user")
    as [_ Hback].
  exact (Hback eq_refl "repl"%string).
Defined.

Lemma substr_truncates (s : string) : forall n,
  exists rest,
    s = ast.substr 0 n s +:+ rest
    /\ String.length (ast.substr 0 n s) = Nat.min n (String.length s).
Proof.
  unfold ast.substr.
  induction s as [|x s IH]; intros [|n]; simpl.
  - by exists EmptyString.
  - by exists EmptyString.
  - by exists (String.String x s).
  - destruct (IH n) as (rest & Hrest & Hlen). exists rest.
    split; [|by rewrite Hlen].
    change (String.String x s
            = String.String x (substring 0 n s +:+ rest)).
    by f_equal.
Qed.

(** X17: [String::toString] shows at most [truncateSize] characters: an initial
    part of the data of length [min 10 (size)], all of it when the data has
    at most ten characters. *)
Theorem String_toString_truncates (loc : LocationRange) (data : string) :
  exists shown rest,
    ast.toString (ast.String_ loc data)
    = Some (("<String '" +:+ shown) +:+ "'>")
    /\ data = shown +:+ rest
    /\ String.length shown = Nat.min 10 (String.length data)
    /\ (String.length data <= 10 -> shown = data).
Proof.
  destruct (substr_truncates data
              (if ast.truncateSize <=? String.length data
               then ast.truncateSize else String.length data))
    as (rest & Hrest & Hlen).
  eexists _, rest. split; [reflexivity|]. split; [exact Hrest|].
  unfold ast.truncateSize in *. split.
  - rewrite Hlen. destruct (Nat.leb_spec 10 (String.length data)); lia.
  - intros Hshort. apply substr_whole.
    destruct (Nat.leb_spec 10 (String.length data)); lia.
Qed.

Lemma List_appends (loc : LocationRange) (v : ast.Ast) : forall elements,
  fold_left (fun l n => fst (ast.List_append l n)) v (ast.List loc elements)
  = ast.List loc (elements ++ v).
Proof.
  induction v as [|n v IH]; intros elements; simpl.
  - by rewrite app_nil_r.
  - by rewrite IH, <- app_assoc.
Qed.

(** X18: Building a list node from a vector of nodes gives the node that
    appending the nodes one by one to an empty list gives; the constructor
    leaves the caller's vector empty, and [append] leaves the caller's node
    null. *)
Theorem List_ctor_is_repeated_append (loc : LocationRange) (v : ast.Ast) :
  fst (ast.List_ctor_from loc v)
  = fold_left (fun l n => fst (ast.List_append l n)) v (ast.List_ctor loc)
  /\ fst (ast.List_ctor_from loc v) = ast.List loc v
  /\ snd (ast.List_ctor_from loc v) = []
  /\ (forall elements n,
        ast.List_append (ast.List loc elements) n
        = (ast.List loc (elements ++ [n]), ast.EmptyNode)).
Proof.
  unfold ast.List_ctor. rewrite List_appends. by repeat split.
Qed.

(** Induction over expressions that reaches the elements of a list. *)
Lemma Expression_nested_ind (P : ast.Expression -> Prop) :
  (forall e, (forall loc es, e <> ast.List loc es) -> P e) ->
  (forall loc es,
     Forall (fun o => match o with Some e => P e | None => True end) es ->
     P (ast.List loc es)) ->
  forall e, P e.
Proof.
  intros Hleaf Hlist. fix F 1.
  intros [ ? ? ? | ? ? ? ? | loc es | ? ? | ? ? | ? ? ? | ? ? ? ? ? ];
    try (apply Hleaf; discriminate).
  apply Hlist. induction es as [|o es IH]; constructor; [|exact IH].
  destruct o as [e|]; [apply F | exact I].
Qed.

(** X19: Printing dereferences every element of every list it goes through:
    [toString] returns a text exactly for the trees in which no list holds a
    null node; the empty list prints as ["<List ->"]. *)
Theorem toString_defined_without_null_nodes (e : ast.Expression) :
  (is_Some (ast.toString e) <-> noNullNodes e = true)
  /\ (forall loc, ast.toString (ast.List loc []) = Some "<List ->"%string)
  /\ (forall loc before after,
        ast.toString (ast.List loc (before ++ None :: after)) = None).
Proof.
  split; [|split].
  - induction e as [e Hleaf | loc es Hall] using Expression_nested_ind.
    + destruct e; try (by split; [done | intros _; eexists]).
      by destruct (Hleaf location elements).
    + simpl.
      set (init := match es with [] => "-"%string | _ => ""%string end).
      clearbody init.
      assert (Hloop : forall s,
        is_Some
          ((fix loop (ns : list (option ast.Expression)) (s : string)
              : option string :=
              match ns with
              | [] => Some s
              | None :: _ => None
              | Some n :: rest =>
                  match ast.toString n with
                  | Some t => loop rest ((s +:+ ", ") +:+ t)
                  | None => None
                  end
              end) es s)
        <-> (fix all (ns : list (option ast.Expression)) : bool :=
               match ns with
               | [] => true
               | None :: _ => false
               | Some n :: rest => noNullNodes n && all rest
               end) es = true).
      { induction Hall as [|o es Ho Hall IH]; intros s.
        - split; [done | by eexists].
        - destruct o as [n|]; [|by split; [intros [? ?] | ]].
          rewrite andb_true_iff, <- Ho.
          destruct (ast.toString n) as [t|].
          + rewrite (IH ((s +:+ ", ") +:+ t)). split; [by split; [eexists|] |].
            by intros [_ ?].
          + split; [by intros [? ?] | by intros [[? ?] _]]. }
      specialize (Hloop init).
      destruct (_ es init) as [s|]; rewrite <- Hloop;
        (split; [done | ]); [by eexists | by intros [? ?]].
  - done.
  - intros loc before after. simpl.
    set (init := match before ++ None :: after with
                 | [] => "-"%string | _ => ""%string end).
    clearbody init. revert init.
    induction before as [|o before IH]; intros init; [done|].
    destruct o as [n|]; [|done]. simpl.
    destruct (ast.toString n) as [t|]; [|done].
    specialize (IH ((init +:+ ", ") +:+ t)).
    by destruct (_ (before ++ None :: after) _).
Qed.

(** ** The JIT: optimisation level, dylib stacks, object cache *)

(** X20: The optimisation level is between 0 and 3, never decreases along the
    order of the phases, is 0 exactly for the phases up to [NoOptimization],
    and is 1, 2 and 3 for [O1], [O2] and [O3]. *)
Theorem getOptimizatioLevel_monotone (o1 o2 : Options) :
  (0 <= jit.getOptimizatioLevel o1 <= 3)%Z
  /\ ((jit.phase_index (compilationPhase o1)
       <= jit.phase_index (compilationPhase o2))%Z ->
      (jit.getOptimizatioLevel o1 <= jit.getOptimizatioLevel o2)%Z)
  /\ (jit.getOptimizatioLevel o1 = 0%Z
      <-> (jit.phase_index (compilationPhase o1)
           <= jit.phase_index NoOptimization)%Z)
  /\ (jit.getOptimizatioLevel o1
      = Z.max 0 (jit.phase_index (compilationPhase o1)
                 - jit.phase_index NoOptimization))%Z.
Proof.
  unfold jit.getOptimizatioLevel.
  destruct (compilationPhase o1), (compilationPhase o2); vm_compute;
    repeat split; intros; try discriminate; try done.
Qed.

Lemma getOptimizatioLevel_monotone_witness :
  (jit.getOptimizatioLevel defaultOptions
   <= jit.getOptimizatioLevel
        (mkOptions false true true true true false O2))%Z.
Proof.
  destruct (getOptimizatioLevel_monotone defaultOptions
              (mkOptions false true true true true false O2))
    as (_ & Hmono & _).
  apply Hmono. vm_compute. discriminate.
Defined.

(** X21: The dylibs of a namespace form a stack that only grows: after a push
    the latest dylib of that namespace is the pushed one and its count is
    one more; the stacks of other namespaces are untouched; a namespace
    without a push has no latest dylib and count zero. *)
Theorem pushJITDylib_stack
    (jitDylibs : gmap string (list jit.JITDylibPtr))
    (nsName other : string) (l : jit.JITDylibPtr) :
  let pushed := jit.pushJITDylib jitDylibs nsName l in
  jit.getLatestJITDylib pushed nsName = l
  /\ jit.getNumberOfJITDylibs pushed nsName
     = (jit.getNumberOfJITDylibs jitDylibs nsName + 1)%N
  /\ (other <> nsName ->
      jit.getLatestJITDylib pushed other
      = jit.getLatestJITDylib jitDylibs other
      /\ jit.getNumberOfJITDylibs pushed other
         = jit.getNumberOfJITDylibs jitDylibs other)
  /\ (jitDylibs !! nsName = None ->
      jit.getLatestJITDylib jitDylibs nsName = None
      /\ jit.getNumberOfJITDylibs jitDylibs nsName = 0%N).
Proof.
  intros pushed. subst pushed.
  unfold jit.getLatestJITDylib, jit.getNumberOfJITDylibs, jit.pushJITDylib.
  split; [|split; [|split]].
  - destruct (jitDylibs !! nsName) as [vec|]; rewrite lookup_insert_eq;
      [|done].
    destruct (vec ++ [l]) as [|a rest] eqn:Hvec.
    + by destruct vec.
    + rewrite <- Hvec. apply last_last.
  - destruct (jitDylibs !! nsName) as [vec|]; rewrite lookup_insert_eq;
      [|done].
    rewrite length_app. simpl. lia.
  - intros Hne.
    destruct (jitDylibs !! nsName) as [vec|];
      by rewrite !lookup_insert_ne by congruence.
  - by intros ->.
Qed.

Lemma pushJITDylib_stack_witness :
  jit.getLatestJITDylib
    (jit.pushJITDylib (jit.pushJITDylib ∅ "user" (Some 16%N))
       "core" (Some 32%N))
    "user"
  = jit.getLatestJITDylib (jit.pushJITDylib ∅ "user" (Some 16%N)) "user".
Proof.
  destruct (pushJITDylib_stack (jit.pushJITDylib ∅ "user" (Some 16%N))
              "core" "user" (Some 32%N))
    as (_ & _ & Hother & _).
  by destruct Hother.
Defined.

(** X22: The object cache returns for a module the buffer of its latest
    notification, bytes and identifier; notifications for other modules do
    not disturb it; a module never notified has no object; and [getObject]
    reads the cache without changing it. *)
Theorem ObjectCache_returns_latest
    (cachedObjects : gmap string (list Byte.byte * string))
    (m other : string) (objBuffer later : list Byte.byte * string) :
  jit.getObject (jit.notifyObjectCompiled cachedObjects m objBuffer) m
  = Some objBuffer
  /\ jit.getObject
       (jit.notifyObjectCompiled
          (jit.notifyObjectCompiled cachedObjects m objBuffer) m later) m
     = Some later
  /\ (other <> m ->
      jit.getObject (jit.notifyObjectCompiled cachedObjects m objBuffer) other
      = jit.getObject cachedObjects other)
  /\ (cachedObjects !! m = None -> jit.getObject cachedObjects m = None).
Proof.
  unfold jit.getObject, jit.notifyObjectCompiled.
  split; [|split; [|split]].
  - rewrite lookup_insert_eq. by destruct objBuffer.
  - rewrite lookup_insert_eq. by destruct later.
  - intros Hne. by rewrite lookup_insert_ne by congruence.
  - by intros ->.
Qed.

Lemma ObjectCache_returns_latest_witness :
  jit.getObject
    (jit.notifyObjectCompiled ∅ "user" (three_lines, "user.o"%string)) "core"
  = jit.getObject ∅ "core".
Proof.
  destruct (ObjectCache_returns_latest ∅ "user" "core"
              (three_lines, "user.o"%string) ([], EmptyString))
    as (_ & _ & Hother & _).
  by apply Hother.
Defined.

(** ** Environments: lookup returns *)

(** X23: On every store that [createEnv] and [insert_symbol] build, the parent
    pointers lead to older environments, so [lookup] on an environment of
    the store follows its chain to the end and returns: either a value whose
    conversion to [bool] is [true], or [std::nullopt]. *)
Theorem lookup_returns_on_built_stores
    {V : Type} `{ValueType V}
    (store : list (Environment V)) (self : nat) (key : string) :
  built_store store ->
  self < length store ->
  Env.wf_store store
  /\ exists r, Env.lookup store self key = Some r
               /\ match r with
                  | Some v => to_bool v = true
                  | None => True
                  end.
Proof.
  intros Hbuilt Hlen.
  assert (Hwf : Env.wf_store store).
  { clear Hlen. induction Hbuilt as [|store par _ IH Hpar|store s k v _ IH _].
    - by intros i env p Hi.
    - by apply createEnv_wf.
    - by apply insert_symbol_wf. }
  split; [done|]. clear Hbuilt.
  induction (lt_wf self) as [self _ IH].
  destruct (lookup_lt_is_Some_2 store self Hlen) as [env Hself].
  rewrite (lookup_step _ _ _ _ Hwf Hself).
  destruct (to_bool (Env.StringMap_lookup (pairs env) key)) eqn:Hv.
  - by eexists (Some _).
  - destruct (parent env) as [p|] eqn:Hp; [|by exists None].
    pose proof (Hwf _ _ _ Hself Hp). apply IH; lia.
Qed.

Lemma lookup_returns_on_built_stores_witness :
  exists r, Env.lookup two_scopes 1 "x" = Some r
            /\ match r with
               | Some v => to_bool v = true
               | None => True
               end.
Proof.
  apply (lookup_returns_on_built_stores two_scopes 1 "x").
  - unfold two_scopes. apply built_createEnv.
    + apply built_createEnv; [apply built_empty | done].
    + intros p [= <-]. simpl. lia.
  - simpl. lia.
Defined.
